(** * cursor-acp: the Cursor-to-ACP adapter, embedded and verified

    A shallow embedding of [src/internal/cursor-agent.ts]: the event mapper
    [mapCursorEventToAcp] with the tool classifiers it calls, the line
    handler and finaliser of [prompt], and the session verbs of
    [CursorAcpAgent].

    Conventions of the embedding.
    - A JavaScript value that comes out of [JSON.parse] is a [value]. A number
      is an integer [Z]: [VNum n] is the Number value of [n], which is [n]
      itself when a double holds it, as it does every integer below 2^53 in
      magnitude, and otherwise the double nearest to [n], as [JSON.parse]
      reads the literal. [NumberToString] prints it as [Number::toString]
      does: the decimal digits of a safe integer, the shortest digits that
      read back as the same double above, exponent notation from 10^21 on.
      Numbers with a fractional part have no value in the model; the
      negative zero prints and tests as zero does.
    - A string is a [string]; each character stands for one UTF-16 code unit,
      so the model covers strings whose code units are below 256. Length,
      [startsWith], [slice] and [trim] work per code unit as in the source.
    - An object is the list of its own properties in the order [Object.keys]
      enumerates them; a property read takes the first entry of that name.
    - A computation that can throw returns a [completion]. *)

From Stdlib Require Import ZArith Ascii String.
From stdpp Require Import gmap strings pretty.

Set Warnings "-register-all".

Open Scope string_scope.
Open Scope Z_scope.

(** ** JavaScript values *)

Inductive value : Type :=
| VUndef
| VNull
| VBool (b : bool)
| VNum (n : Z)
| VStr (s : string)
| VArr (elems : list value)
| VObj (props : list (string * value)).

(** ** Completions: a normal result or a thrown exception *)

Inductive exn : Type :=
| TypeError
| Error (msg : string).

Inductive completion (A : Type) : Type :=
| Normal (a : A)
| Throw (e : exn).

Arguments Normal {A} a.
Arguments Throw {A} e.

Global Instance completion_ret : MRet completion := fun A a => Normal a.
Global Instance completion_bind : MBind completion := fun A B f c =>
  match c with
  | Normal a => f a
  | Throw e => Throw e
  end.

(** [try { return c } catch { return h }] *)
Definition tryCatch {A : Type} (c : completion A) (h : A) : A :=
  match c with
  | Normal a => a
  | Throw _ => h
  end.

(** ** Primitive operations on values *)

(** [!!v] *)
Definition truthy (v : value) : bool :=
  match v with
  | VUndef | VNull => false
  | VBool b => b
  | VNum n => negb (n =? 0)
  | VStr s => negb (String.eqb s "")
  | VArr _ | VObj _ => true
  end.

(** [v === undefined || v === null] *)
Definition nullish (v : value) : bool :=
  match v with
  | VUndef | VNull => true
  | _ => false
  end.

(** [a ?? b], for a right operand that cannot throw *)
Definition coalesce (a b : value) : value := if nullish a then b else a.

Infix "??" := coalesce (at level 40, left associativity).

(** [typeof v === "string"], [typeof v === "number"], [Array.isArray(v)] *)
Definition isString (v : value) : bool :=
  match v with VStr _ => true | _ => false end.
Definition isNumber (v : value) : bool :=
  match v with VNum _ => true | _ => false end.
Definition isArray (v : value) : bool :=
  match v with VArr _ => true | _ => false end.

(** [v === s] for a string literal [s] *)
Definition isStr (v : value) (s : string) : bool :=
  match v with VStr t => String.eqb t s | _ => false end.

Fixpoint assoc (k : string) (ps : list (string * value)) : value :=
  match ps with
  | [] => VUndef
  | (k', v) :: r => if String.eqb k k' then v else assoc k r
  end.

Fixpoint hasOwn (k : string) (ps : list (string * value)) : bool :=
  match ps with
  | [] => false
  | (k', _) :: r => String.eqb k k' || hasOwn k r
  end.

(** A property name that is a canonical array index: ["0"], or decimal digits
    without a leading zero. *)
Fixpoint digitsToN (acc : N) (s : string) : option N :=
  match s with
  | EmptyString => Some acc
  | String c r =>
      let d := N_of_ascii c in
      if ((48 <=? d) && (d <=? 57))%N then digitsToN (10 * acc + (d - 48))%N r
      else None
  end.

Definition arrayIndex (k : string) : option nat :=
  match k with
  | EmptyString => None
  | String "0"%char EmptyString => Some 0%nat
  | String "0"%char _ => None
  | _ => N.to_nat <$> digitsToN 0%N k
  end.

(** [v?.[k]]: the property [k] of [v], [undefined] when [v] is nullish or
    has no such property. The names the source reads ([type], [args],
    [path], ...) are no members of [Object.prototype], [Array.prototype],
    [String.prototype], [Number.prototype] or [Boolean.prototype], so only
    own properties can answer. *)
Definition prop (v : value) (k : string) : value :=
  match v with
  | VObj ps => assoc k ps
  | VArr l =>
      if String.eqb k "length" then VNum (Z.of_nat (List.length l))
      else match arrayIndex k with
           | Some i => default VUndef (l !! i)
           | None => VUndef
           end
  | VStr s =>
      if String.eqb k "length" then VNum (Z.of_nat (String.length s))
      else match arrayIndex k with
           | Some i => match String.get i s with
                       | Some c => VStr (String c EmptyString)
                       | None => VUndef
                       end
           | None => VUndef
           end
  | _ => VUndef
  end.

(** [v.k]: throws a [TypeError] on [undefined] and [null] *)
Definition get (v : value) (k : string) : completion value :=
  if nullish v then Throw TypeError else Normal (prop v k).

(** [Object.keys(v)[0]] for a value [v] that is not nullish; [None] is
    [undefined] *)
Definition firstKey (v : value) : option string :=
  match v with
  | VObj ((k, _) :: _) => Some k
  | VArr (_ :: _) => Some "0"
  | VStr (String _ _) => Some "0"
  | _ => None
  end.

(** ** Numbers *)

(** The Number value of an integer [r >= 0]: [r] itself below 2^53, otherwise
    the nearest multiple of the gap between doubles of the size of [r], a tie
    going to the even significand. From 2^1024 on the value is [Infinity]. *)
Definition roundToDouble (r : Z) : Z :=
  if r <? 2 ^ 53 then r
  else
    let ulp := 2 ^ (Z.log2 r - 52) in
    let q := r / ulp in
    let rest := r mod ulp in
    let up := (ulp <? 2 * rest) || ((2 * rest =? ulp) && Z.odd q) in
    (if up then q + 1 else q) * ulp.

Definition decimalDigits (x : Z) : Z := Z.of_nat (String.length (pretty x)).

(** Of the decimals with [k] significant digits next to the double [x], which
    has [n] digits, the one whose Number value is [x]: the closer one when
    both are, the one with the even last digit when they are as close. *)
Definition shortestWith (x n k : Z) : option Z :=
  let p := 10 ^ (n - k) in
  let lo := x / p * p in
  let hi := lo + p in
  let okLo := roundToDouble lo =? x in
  let okHi := roundToDouble hi =? x in
  if okLo && okHi then
    if x - lo <? hi - x then Some lo
    else if hi - x <? x - lo then Some hi
    else if Z.even (lo / p) then Some lo else Some hi
  else if okLo then Some lo
  else if okHi then Some hi
  else None.

Fixpoint shortestFrom (fuel : nat) (x n k : Z) : Z :=
  match fuel with
  | O => x
  | S fuel' => match shortestWith x n k with
               | Some v => v
               | None => shortestFrom fuel' x n (k + 1)
               end
  end.

(** The decimal with the fewest significant digits whose Number value is the
    double [x >= 2^53]; seventeen digits tell any two doubles apart. *)
Definition shortestDecimal (x : Z) : Z :=
  shortestFrom 17 x (decimalDigits x) 1.

Fixpoint dropZeros (s : string) : string :=
  match s with
  | EmptyString => EmptyString
  | String c r => if Ascii.eqb c "0" then dropZeros r else s
  end.

(** The digits of [v] without its trailing zeros *)
Definition significand (v : Z) : string :=
  String.rev (dropZeros (String.rev (pretty v))).

(** [d.ddde+x], [de+x] for a single digit *)
Definition exponential (v : Z) : string :=
  match significand v with
  | EmptyString => EmptyString
  | String d rest =>
      String d (if String.eqb rest "" then "" else "." +:+ rest)
      +:+ "e+" +:+ pretty (decimalDigits v - 1)
  end.

Definition magnitudeToString (r : Z) : string :=
  if r <? 2 ^ 53 then pretty r
  else
    let x := roundToDouble r in
    if 2 ^ 1024 <=? x then "Infinity"
    else
      let v := shortestDecimal x in
      if decimalDigits v <=? 21 then pretty v else exponential v.

(** [Number::toString] on the Number value of the integer [n] *)
Definition NumberToString (n : Z) : string :=
  if n <? 0 then "-" +:+ magnitudeToString (- n) else magnitudeToString n.

Arguments NumberToString : simpl never.

(** [String(v)], also the conversion of [`${v}`]. An array joins its elements
    with a comma, [null] and [undefined] elements giving the empty string. An
    object parsed from JSON has no callable own property: with an own
    [toString] neither [toString] nor the inherited [valueOf] yields a
    primitive and the conversion throws a [TypeError]; without one the
    inherited [Object.prototype.toString] answers. *)
Fixpoint ToString (v : value) : completion string :=
  match v with
  | VUndef => Normal "undefined"
  | VNull => Normal "null"
  | VBool b => Normal (if b then "true" else "false")
  | VNum n => Normal (NumberToString n)
  | VStr s => Normal s
  | VArr l =>
      ss ← (fix elems (l : list value) : completion (list string) :=
              match l with
              | [] => Normal []
              | x :: r =>
                  s ← (if nullish x then Normal "" else ToString x);
                  ss ← elems r;
                  Normal (s :: ss)
              end) l;
      Normal (String.concat "," ss)
  | VObj ps =>
      if hasOwn "toString" ps then Throw TypeError
      else Normal "[object Object]"
  end.

(** The element conversion of [Array.prototype.join] *)
Definition elemToString (x : value) : completion string :=
  if nullish x then Normal "" else ToString x.

Fixpoint elemsToStrings (l : list value) : completion (list string) :=
  match l with
  | [] => Normal []
  | x :: r => s ← elemToString x; ss ← elemsToStrings r; Normal (s :: ss)
  end.

(** [l.join(sep)] on an array of values *)
Definition arrayJoin (sep : string) (l : list value) : completion string :=
  ss ← elemsToStrings l; Normal (String.concat sep ss).

(** ** String operations *)

(** [s.startsWith(p)] *)
Fixpoint startsWith (s p : string) : bool :=
  match p with
  | EmptyString => true
  | String a p' =>
      match s with
      | EmptyString => false
      | String b s' => if Ascii.eqb a b then startsWith s' p' else false
      end
  end.

(** [s.slice(n)] for [n >= 0] *)
Fixpoint sliceFrom (n : nat) (s : string) : string :=
  match n, s with
  | O, _ => s
  | S _, EmptyString => EmptyString
  | S n', String _ r => sliceFrom n' r
  end.

(** [s.slice(0, n)] for [n >= 0] *)
Fixpoint sliceTo (n : N) (s : string) : string :=
  match s with
  | EmptyString => EmptyString
  | String c r => if (n =? 0)%N then EmptyString else String c (sliceTo (n - 1) r)
  end.

(** The line feed, ["\n"] in the source *)
Definition LF : string := String (ascii_of_nat 10) EmptyString.

(** White space and line terminators of ECMAScript among the code units
    below 256: TAB, LF, VT, FF, CR, SP and NBSP. *)
Definition isWhiteSpace (c : ascii) : bool :=
  let n := N_of_ascii c in
  ((9 <=? n) && (n <=? 13) || (n =? 32) || (n =? 160))%N.

Fixpoint trimStart (s : string) : string :=
  match s with
  | EmptyString => EmptyString
  | String c r => if isWhiteSpace c then trimStart r else s
  end.

(** [s.trim()] *)
Definition trim (s : string) : string :=
  String.rev (trimStart (String.rev (trimStart s))).

(** ** Outbound notifications *)

Inductive Mode : Type := ModeDefault | ModePlan.

Inductive ToolKind : Type := KRead | KEdit | KSearch | KExecute | KOther.

Inductive ToolCallStatus : Type := Pending | InProgress | Completed | Failed.

(** [{ path, line? }] *)
Record Location : Type := { path : string; line : option Z }.

Inductive ToolCallContent : Type :=
| ContentText (text : value)
    (* { type: "content", content: { type: "text", text } } *)
| ContentDiff (diffPath oldText newText : value).
    (* { type: "diff", path, oldText, newText } *)

(** The [update] member of a notification, by its [sessionUpdate] tag. A
    member the source leaves out of the object literal is [None]. *)
Inductive SessionUpdate : Type :=
| AgentMessageChunk (text : string)
| ToolCall (toolCallId : value) (title : string) (kind : ToolKind)
    (status : ToolCallStatus) (rawInput : value)
    (locations : option (list Location))
| ToolCallUpdate (toolCallId : value) (status : ToolCallStatus)
    (rawOutput : option value) (locations : option (list Location))
    (content : option (list ToolCallContent))
| CurrentModeUpdate (currentModeId : Mode)
| AvailableCommandsUpdate.

Record SessionNotification : Type :=
  { sessionId : string; update : SessionUpdate }.

(** ** Tool-event classifiers *)

Definition buildToolTitle (kind : string) (args : value) : completion string :=
  if String.eqb kind "readToolCall" then
    if truthy (prop args "path")
    then p ← ToString (prop args "path"); Normal ("Read " +:+ p)
    else Normal "Read"
  else if String.eqb kind "writeToolCall" then
    if truthy (prop args "path")
    then p ← ToString (prop args "path"); Normal ("Write " +:+ p)
    else Normal "Write"
  else if String.eqb kind "grepToolCall" then
    if truthy (prop args "pattern") && truthy (prop args "path") then
      p ← ToString (prop args "path");
      pat ← ToString (prop args "pattern");
      Normal ("Search " +:+ p +:+ " for " +:+ pat)
    else if truthy (prop args "pattern") then
      pat ← ToString (prop args "pattern"); Normal ("Search for " +:+ pat)
    else Normal "Search"
  else if String.eqb kind "globToolCall" then
    if truthy (prop args "pattern")
    then pat ← ToString (prop args "pattern"); Normal ("Glob " +:+ pat)
    else Normal "Glob"
  else if String.eqb kind "bashToolCall" || String.eqb kind "shellToolCall" then
    cmd ← (if negb (nullish (prop args "command")) then Normal (prop args "command")
           else if negb (nullish (prop args "cmd")) then Normal (prop args "cmd")
           else match prop args "commands" with
                | VArr l => s ← arrayJoin " && " l; Normal (VStr s)
                | _ => Normal VUndef
                end);
    if truthy cmd
    then s ← ToString cmd; Normal ("`" +:+ s +:+ "`")
    else Normal "Terminal"
  else Normal kind.

Definition inferToolKind (kind : string) : ToolKind :=
  if String.eqb kind "readToolCall" then KRead
  else if String.eqb kind "writeToolCall" then KEdit
  else if String.eqb kind "grepToolCall" || String.eqb kind "globToolCall" then KSearch
  else if String.eqb kind "bashToolCall" || String.eqb kind "shellToolCall" then KExecute
  else KOther.

(** [typeof v === "number" ? v : undefined] *)
Definition numberOrUndefined (v : value) : option Z :=
  match v with VNum n => Some n | _ => None end.

(** [{ path: o.path, line: typeof o.line === "number" ? o.line : undefined }] *)
Definition locationOf (p : string) (o : value) : Location :=
  {| path := p; line := numberOrUndefined (prop o "line") |}.

(** One entry of [args.paths] or of [result.files]: the string test first *)
Definition locsOfStringOrObject (p : value) : list Location :=
  match p with
  | VStr s => [ {| path := s; line := None |} ]
  | _ => match prop p "path" with
         | VStr q => if truthy p then [ locationOf q p ] else []
         | _ => []
         end
  end.

(** One entry of [result.matches]: the object test first *)
Definition locsOfObjectOrString (m : value) : list Location :=
  match prop m "path" with
  | VStr q => if truthy m then [ locationOf q m ] else []
  | _ => match m with
         | VStr s => [ {| path := s; line := None |} ]
         | _ => []
         end
  end.

(** [locs.length ? locs : undefined] *)
Definition nonEmpty {A : Type} (l : list A) : option (list A) :=
  match l with [] => None | _ => Some l end.

Definition toLocationsFromArgs (args : value) : option (list Location) :=
  let locs1 := match prop args "path" with
               | VStr p => [ locationOf p args ]
               | _ => []
               end in
  let locs2 := match prop args "paths" with
               | VArr ps => flat_map locsOfStringOrObject ps
               | _ => []
               end in
  nonEmpty (locs1 ++ locs2).

Definition toLocationsFromResult (result : value) : option (list Location) :=
  if negb (truthy result) then None
  else
    let locs1 := match prop result "matches" with
                 | VArr ms => flat_map locsOfObjectOrString ms
                 | _ => []
                 end in
    let locs2 := match prop result "files" with
                 | VArr fs => flat_map locsOfStringOrObject fs
                 | _ => []
                 end in
    let locs3 := match prop result "path" with
                 | VStr p => [ locationOf p result ]
                 | _ => []
                 end in
    nonEmpty (locs1 ++ locs2 ++ locs3).

(** [toolKindKey === s] for a string literal [s]; [toolKindKey] is a string
    or [undefined] *)
Definition keyIs (toolKindKey : option string) (s : string) : bool :=
  match toolKindKey with
  | Some k => String.eqb k s
  | None => false
  end.

(** The body of the [try] block of [summarizeSearchResult] *)
Definition summarizeSearchBody (toolKindKey : option string) (args result : value)
  : completion (option string) :=
  if keyIs toolKindKey "grepToolCall" then
    let matches := match prop result "matches" with VArr l => l | _ => [] end in
    let count := match prop result "count" with
                 | VNum n => n
                 | _ => Z.of_nat (List.length matches)
                 end in
    pat ← (if truthy (prop args "pattern") then ToString (prop args "pattern")
           else Normal "pattern");
    Normal (Some ("Found " +:+ NumberToString count +:+ " match(es) for " +:+ pat))
  else if keyIs toolKindKey "globToolCall" then
    let files := match prop result "files" with VArr l => l | _ => [] end in
    let count := Z.of_nat (List.length files) in
    pat ← (if truthy (prop args "pattern") then ToString (prop args "pattern")
           else Normal "pattern");
    Normal (Some ("Found " +:+ NumberToString count +:+ " file(s) matching " +:+ pat))
  else Normal None.

Definition summarizeSearchResult (toolKindKey : option string) (args result : value)
  : option string :=
  tryCatch (summarizeSearchBody toolKindKey args result) None.

(** [JSON.parse(JSON.stringify(obj))] under [try], [undefined] in the
    [catch]: a value parsed from JSON is printed and parsed back to an equal
    value; [JSON.stringify(undefined)] is [undefined], which [JSON.parse]
    rejects, and the [catch] returns [undefined]. *)
Definition safeJson (obj : value) : value := obj.

(** ** The event mapper *)

(** [evt?.message?.content?.[0]?.text ?? ""] *)
Definition assistantText (evt : value) : value :=
  prop (prop (prop (prop evt "message") "content") "0") "text" ?? VStr "".

(** [text !== lastAssistantText], the right side a string *)
Definition strictNe (text : value) (last : string) : bool :=
  match text with
  | VStr t => negb (String.eqb t last)
  | _ => true
  end.

(** The [case "assistant"] of the mapper. [startsWith] is a method of strings
    only: on a truthy text of another type the call throws a [TypeError]. *)
Definition mapAssistant (sid : string) (evt : value) (lastAssistantText : string)
  : completion (list SessionNotification) :=
  let text := assistantText evt in
  if truthy text && strictNe text lastAssistantText then
    match text with
    | VStr t =>
        let delta := if startsWith t lastAssistantText
                     then sliceFrom (String.length lastAssistantText) t
                     else t in
        if negb (String.eqb delta "")
        then Normal [ {| sessionId := sid; update := AgentMessageChunk delta |} ]
        else Normal []
    | _ => Throw TypeError
    end
  else Normal [].

(** [toolKindKey || "Other"] *)
Definition keyOrOther (toolKindKey : option string) : string :=
  match toolKindKey with
  | Some k => if String.eqb k "" then "Other" else k
  | None => "Other"
  end.

(** [evt.tool_call ? Object.keys(evt.tool_call)[0] : undefined] *)
Definition toolKindKeyOf (evt : value) : option string :=
  if truthy (prop evt "tool_call") then firstKey (prop evt "tool_call") else None.

(** [toolKindKey ? evt.tool_call[toolKindKey] : undefined] *)
Definition toolOf (evt : value) : value :=
  match toolKindKeyOf evt with
  | Some k => if String.eqb k "" then VUndef else prop (prop evt "tool_call") k
  | None => VUndef
  end.

(** [tool?.args ?? {}] *)
Definition argsOf (evt : value) : value := prop (toolOf evt) "args" ?? VObj [].

(** [evt.call_id ?? evt.tool_call_id ?? ""] *)
Definition callIdOf (evt : value) : value :=
  prop evt "call_id" ?? prop evt "tool_call_id" ?? VStr "".

(** [tool?.result?.success ?? tool?.result?.error ?? tool?.result] *)
Definition resultOf (evt : value) : value :=
  let r := prop (toolOf evt) "result" in
  prop r "success" ?? prop r "error" ?? r.

(** [!!tool?.result?.error] *)
Definition isErrorOf (evt : value) : bool :=
  truthy (prop (prop (toolOf evt) "result") "error").

(** [result?.output ?? result?.stdout ?? ""] *)
Definition shellOutput (result : value) : value :=
  prop result "output" ?? prop result "stdout" ?? VStr "".

(** The text of the content block of a shell completion *)
Definition shellText (outText : string) (exit : option Z) : string :=
  let normalized := if Nat.eqb (String.length (trim outText)) 0
                    then "(no output)" else outText in
  let text := match exit with
              | Some n => ("Exit code: " +:+ NumberToString n +:+ LF) +:+ normalized
              | None => "" +:+ normalized
              end in
  "```" +:+ LF +:+ text +:+ LF +:+ "```".

(** The [update.content] of a completion, [None] when the source sets none *)
Definition completedContent (toolKindKey : option string) (args result : value)
  : completion (option (list ToolCallContent)) :=
  if keyIs toolKindKey "readToolCall"
     && truthy (prop result "content" ?? prop args "content") then
    contentText ← ToString (prop result "content" ?? prop args "content" ?? VStr "");
    Normal (Some [ ContentText (VStr (sliceTo 20000 contentText)) ])
  else if keyIs toolKindKey "writeToolCall" then
    let path := prop args "path" in
    let newText := prop result "newText" ?? prop args "fileText"
                   ?? prop args "newText" ?? VStr "" in
    let oldText := prop result "oldText" ?? VNull in
    Normal (Some (if truthy path
                  then [ ContentDiff path oldText newText ]
                  else [ ContentText newText ]))
  else if keyIs toolKindKey "bashToolCall" || keyIs toolKindKey "shellToolCall" then
    let output := shellOutput result in
    let exit := numberOrUndefined (prop result "exitCode") in
    outText ← ToString output;
    Normal (Some [ ContentText (VStr (shellText outText exit)) ])
  else if keyIs toolKindKey "grepToolCall" || keyIs toolKindKey "globToolCall" then
    match summarizeSearchResult toolKindKey args result with
    | Some summary =>
        if negb (String.eqb summary "")
        then Normal (Some [ ContentText (VStr summary) ])
        else Normal None
    | None => Normal None
    end
  else Normal None.

(** The [case "tool_call"] of the mapper *)
Definition mapToolCall (sid : string) (evt : value)
  : completion (list SessionNotification) :=
  let callId := callIdOf evt in
  let started := isStr (prop evt "subtype") "started" in
  let completed := isStr (prop evt "subtype") "completed" in
  let toolKindKey := toolKindKeyOf evt in
  let args := argsOf evt in
  if started then
    title ← buildToolTitle (keyOrOther toolKindKey) args;
    let base := ToolCall callId title (inferToolKind (keyOrOther toolKindKey))
                  Pending (safeJson args) (toLocationsFromArgs args) in
    Normal [ {| sessionId := sid; update := base |};
             {| sessionId := sid;
                update := ToolCallUpdate callId InProgress None None None |} ]
  else if completed then
    let result := resultOf evt in
    let isError := isErrorOf evt in
    let locs := match toLocationsFromResult result with
                | Some l => Some l
                | None => toLocationsFromArgs args
                end in
    content ← completedContent toolKindKey args result;
    Normal [ {| sessionId := sid;
                update := ToolCallUpdate callId
                            (if isError then Failed else Completed)
                            (Some (safeJson result)) locs content |} ]
  else Normal [].

Definition mapCursorEventToAcp (sid : string) (evt : value)
  (lastAssistantText : string) : completion (list SessionNotification) :=
  type ← get evt "type";
  if isStr type "user" then Normal []
  else if isStr type "assistant" then mapAssistant sid evt lastAssistantText
  else if isStr type "tool_call" then mapToolCall sid evt
  else Normal [].

(** ** Sessions and the agent *)

(** The signals [cancel] sends *)
Inductive Signal : Type := SIGTERM | SIGKILL.

(** The handle of a [cursor-agent] process: the argument vector [spawn]
    received, whether the process has exited, the [killed] flag, the signals
    [kill] has delivered to the process, oldest first, and the number of
    timers that wait to send SIGKILL. *)
Record ChildProcess : Type := mkChild
  { spawnargs : list value;
    exited : bool;
    killed : bool;
    signals : list Signal;
    killTimers : nat }.

(** What [spawn] returns; it is taken to return a handle. *)
Definition Spawned (args : list value) : ChildProcess :=
  mkChild args false false [] 0.

(** [child.kill(sig)]: to a process that has not exited the signal is
    delivered and [killed] is set; on a process that has exited [kill] does
    nothing and returns [false]. SIGTERM and SIGKILL are signals [kill]
    knows: it does not throw. *)
Definition kill (sig : Signal) (c : ChildProcess) : ChildProcess :=
  if exited c then c
  else mkChild (spawnargs c) false true (signals c ++ [sig]) (killTimers c).

(** [setTimeout(() => child.kill("SIGKILL"), 1000)] *)
Definition setKillTimer (c : ChildProcess) : ChildProcess :=
  mkChild (spawnargs c) (exited c) (killed c) (signals c) (S (killTimers c)).

(** The callback of such a timer, when one waits *)
Definition onKillTimer (c : ChildProcess) : ChildProcess :=
  match killTimers c with
  | O => c
  | S n => kill SIGKILL (mkChild (spawnargs c) (exited c) (killed c) (signals c) n)
  end.

(** [if (!child.killed) { try { child.kill("SIGTERM"); setTimeout(...) } catch {} }] *)
Definition cancelChild (c : ChildProcess) : ChildProcess :=
  if killed c then c else setKillTimer (kill SIGTERM c).

(** The process exits *)
Definition onExit (c : ChildProcess) : ChildProcess :=
  mkChild (spawnargs c) true (killed c) (signals c) (killTimers c).

Record SessionState : Type := mkSession
  { cwd : option string;
    cancelled : bool;
    resumeId : value;            (* [undefined] until captured *)
    modeId : Mode;
    running : option ChildProcess (* [None]: [undefined] or [null] *) }.

Definition setCancelled (b : bool) (s : SessionState) : SessionState :=
  mkSession (cwd s) b (resumeId s) (modeId s) (running s).
Definition setResumeId (v : value) (s : SessionState) : SessionState :=
  mkSession (cwd s) (cancelled s) v (modeId s) (running s).
Definition setModeId (m : Mode) (s : SessionState) : SessionState :=
  mkSession (cwd s) (cancelled s) (resumeId s) m (running s).
Definition setRunning (c : option ChildProcess) (s : SessionState) : SessionState :=
  mkSession (cwd s) (cancelled s) (resumeId s) (modeId s) c.

(** The agent: the session registry [this.sessions] and the notifications
    handed to [this.client.sessionUpdate], oldest first. *)
Record Agent : Type := mkAgent
  { sessions : gmap string SessionState;
    outbox : list SessionNotification }.

Definition send (notes : list SessionNotification) (st : Agent) : Agent :=
  mkAgent (sessions st) (outbox st ++ notes).

(** An assignment through the reference [session] that a verb or a handler
    holds. No verb removes or replaces a registered session object, so the
    reference and the registry entry of the id are the same object. *)
Definition updSession (sid : string) (f : SessionState → SessionState)
  (st : Agent) : Agent :=
  mkAgent (alter f sid (sessions st)) (outbox st).

(** [this.sessions] is a plain object created by [{}]: reading an id that is
    no own property falls through to [Object.prototype], whose members are
    functions and objects, all truthy. *)
Definition objectPrototypeKeys : list string :=
  [ "constructor"; "__defineGetter__"; "__defineSetter__"; "hasOwnProperty";
    "__lookupGetter__"; "__lookupSetter__"; "isPrototypeOf";
    "propertyIsEnumerable"; "toString"; "valueOf"; "__proto__";
    "toLocaleString" ].

Inductive Lookup : Type :=
| Own (s : SessionState)  (* a registered session *)
| Inherited               (* a member of [Object.prototype] *)
| Absent.                 (* [undefined] *)

(** [this.sessions[id]] *)
Definition sessionsGet (m : gmap string SessionState) (id : string) : Lookup :=
  match m !! id with
  | Some s => Own s
  | None => if bool_decide (id ∈ objectPrototypeKeys) then Inherited else Absent
  end.

(** What a call of a verb does: it returns, or it throws, each with the state
    it leaves; or the looked-up "session" is a built-in inherited from
    [Object.prototype] and the verb goes on with that object, which this
    model does not follow. *)
Inductive Outcome (A : Type) : Type :=
| Returns (a : A) (st : Agent)
| Throws (e : exn) (st : Agent)
| OnBuiltin.

Arguments Returns {A} a st.
Arguments Throws {A} e st.
Arguments OnBuiltin {A}.

(** [newSession], with the id [cryptoRandomId()] draws. The
    [available_commands_update] is sent by a timer after the return:
    [announceCommands]. *)
Definition newSession (id : string) (cwd : option string) (st : Agent) : Agent :=
  mkAgent (<[id := mkSession cwd false VUndef ModeDefault None]> (sessions st))
          (outbox st).

Definition announceCommands (id : string) (st : Agent) : Agent :=
  send [ {| sessionId := id; update := AvailableCommandsUpdate |} ] st.

Definition cancel (sid : string) (st : Agent) : Outcome unit :=
  match sessionsGet (sessions st) sid with
  | Absent => Throws (Error "Session not found") st
  | Inherited => OnBuiltin
  | Own _ =>
      Returns tt
        (updSession sid
           (fun s => setRunning (cancelChild <$> running s) (setCancelled true s)) st)
  end.

Definition setSessionModel (sid : string) (modelId : string) (st : Agent)
  : Outcome unit :=
  Returns tt st.

Definition setSessionMode (sid : string) (mode : string) (st : Agent)
  : Outcome unit :=
  match sessionsGet (sessions st) sid with
  | Absent => Throws (Error "Session not found") st
  | Inherited => OnBuiltin
  | Own _ =>
      let set (m : Mode) :=
        Returns tt
          (send [ {| sessionId := sid; update := CurrentModeUpdate m |} ]
             (updSession sid (setModeId m) st)) in
      if String.eqb mode "default" then set ModeDefault
      else if String.eqb mode "plan" then set ModePlan
      else Throws (Error "Invalid Mode") st
  end.

(** ** The prompt turn *)

Inductive StopReason : Type := EndTurn | Cancelled | Refusal.

(** The chunks of [PromptRequest.prompt] *)
Inductive PromptChunk : Type :=
| ChunkText (text : string)
| ChunkResourceText (text : string)  (* a resource with a [text] member *)
| ChunkResourceBlob                  (* a resource without *)
| ChunkResourceLink (uri : string)
| ChunkOther.                        (* image, audio *)

Definition concatPromptChunks (chunks : list PromptChunk) : string :=
  String.concat (LF +:+ LF)
    (flat_map (fun chunk => match chunk with
                            | ChunkText t => [t]
                            | ChunkResourceText t => [t]
                            | ChunkResourceLink u => [u]
                            | _ => []
                            end) chunks).

Definition planPrefix (m : Mode) : string :=
  match m with
  | ModePlan => "[PLAN MODE] Do not edit files or run commands. Analyze only."
                +:+ LF +:+ LF
  | ModeDefault => ""
  end.

(** The argument vector handed to [spawn] *)
Definition spawnArgs (session : SessionState) (initialPrompt : string) : list value :=
  [ VStr "--print"; VStr "--output-format"; VStr "stream-json";
    VStr "--stream-partial-output" ]
  ++ (if truthy (resumeId session) then [ VStr "--resume"; resumeId session ] else [])
  ++ (if negb (String.eqb initialPrompt "") then [ VStr initialPrompt ] else []).

(** The variables of one call of [prompt] that its handlers close over *)
Record Turn : Type := mkTurn
  { turnSession : string;
    stopReason : option StopReason;
    lastAssistantText : string }.

(** [prompt] up to the registration of its handlers. Of the call of [spawn]
    the argument vector is kept; the executable, the working directory and
    the environment are not modelled. *)
Definition promptStart (sid : string) (prompt : list PromptChunk) (st : Agent)
  : Outcome Turn :=
  match sessionsGet (sessions st) sid with
  | Absent => Throws (Error "Session not found") st
  | Inherited => OnBuiltin
  | Own session =>
      let initialPrompt := planPrefix (modeId session) +:+ concatPromptChunks prompt in
      let child := Spawned (spawnArgs session initialPrompt) in
      Returns (mkTurn sid None "")
        (updSession sid (fun s => setRunning (Some child) (setCancelled false s)) st)
  end.

(** A line of the child's standard output: [JSON.parse] throws on [NotJson] *)
Inductive Line : Type := NotJson | Json (evt : value).

Definition parse (line : Line) : completion value :=
  match line with
  | NotJson => Throw (Error "SyntaxError")
  | Json evt => Normal evt
  end.

(** The stop-reason a [result] event records, [None] when it records none *)
Definition resultStopReason (evt : value) : option StopReason :=
  if isStr (prop evt "type") "result" then
    if isStr (prop evt "subtype") "success" then Some EndTurn
    else if isStr (prop evt "subtype") "cancelled" then Some Cancelled
    else if isStr (prop evt "subtype") "error"
            || isStr (prop evt "subtype") "failure"
            || isStr (prop evt "subtype") "refused" then Some Refusal
    else None
  else None.

(** The [try] block of the ["line"] handler. When it is reached the mapper
    has returned, so the text of an assistant event is a string or falsy. *)
Definition onLineBody (line : Line) (t : Turn) (st : Agent) : completion (Turn * Agent) :=
  evt ← parse line;
  notes ← mapCursorEventToAcp (turnSession t) evt (lastAssistantText t);
  let st1 := send notes st in
  let last := if isStr (prop evt "type") "assistant"
              then match assistantText evt with
                   | VStr text => if negb (String.eqb text "") then text
                                  else lastAssistantText t
                   | _ => lastAssistantText t
                   end
              else lastAssistantText t in
  let stop := match resultStopReason evt with
              | Some r => Some r
              | None => stopReason t
              end in
  let st2 := if truthy (prop evt "session_id")
             then updSession (turnSession t)
                    (fun s => if negb (truthy (resumeId s))
                              then setResumeId (prop evt "session_id") s else s) st1
             else st1 in
  Normal (mkTurn (turnSession t) stop last, st2).

(** The ["line"] handler: whatever the [try] block throws is swallowed *)
Definition onLine (line : Line) (t : Turn) (st : Agent) : Turn * Agent :=
  tryCatch (onLineBody line t st) (t, st).

(** [/p/i.test(s)] for a pattern [p] of lower-case ASCII letters and hyphens *)
Definition toLowerAscii (c : ascii) : ascii :=
  let n := N_of_ascii c in
  if ((65 <=? n) && (n <=? 90))%N then ascii_of_N (n + 32) else c.

Fixpoint prefixCI (p s : string) : bool :=
  match p with
  | EmptyString => true
  | String a p' =>
      match s with
      | EmptyString => false
      | String b s' => Ascii.eqb a (toLowerAscii b) && prefixCI p' s'
      end
  end.

Fixpoint testCI (p s : string) : bool :=
  prefixCI p s || match s with
                  | EmptyString => false
                  | String _ r => testCI p r
                  end.

Definition authHint : string :=
  "Authentication required. Please run `cursor-agent login` in your terminal, then retry the prompt.".

(** The ["data"] handler of the child's standard error *)
Definition onStderr (s : string) (t : Turn) (st : Agent) : Agent :=
  if testCI "login" s && testCI "cursor-agent" s
  then send [ {| sessionId := turnSession t; update := AgentMessageChunk authHint |} ] st
  else st.

(** [finalize], as it first runs after the child's exit: at once when the
    line reader has closed, otherwise when it closes or after 300 ms.
    [exitCode] is [None] when the exit code is [null] (a child ended by a
    signal). *)
Definition finalize (exitCode : option Z) (t : Turn) (st : Agent) : StopReason * Agent :=
  let st1 := updSession (turnSession t) (setRunning None) st in
  let isCancelled := match sessions st !! turnSession t with
                     | Some s => cancelled s
                     | None => false
                     end in
  let reason := if isCancelled then Cancelled
                else match stopReason t with
                     | Some r => r
                     | None => match exitCode with
                               | Some 0 => EndTurn
                               | _ => Refusal
                               end
                     end in
  (reason, st1).

(** What happens between the start of a turn and its resolution. The
    process exits at [ChildExit], or after the last event when there is none;
    what follows [ChildExit] happens while [prompt] waits for the line reader
    to close. A timer that [cancel] sets during the turn holds the handle of
    the turn's process, which until [finalize] is the handle the session
    holds in [running]; [KillTimer] is such a timer firing. *)
Inductive TurnEvent : Type :=
| StdoutLine (line : Line)
| StderrData (s : string)
| CancelRequest
| KillTimer
| ChildExit.

Definition turnStep (ts : Turn * Agent) (ev : TurnEvent) : Turn * Agent :=
  let (t, st) := ts in
  match ev with
  | StdoutLine line => onLine line t st
  | StderrData s => (t, onStderr s t st)
  | CancelRequest => match cancel (turnSession t) st with
                     | Returns _ st' => (t, st')
                     | _ => (t, st)
                     end
  | KillTimer =>
      (t, updSession (turnSession t)
            (fun s => setRunning (onKillTimer <$> running s) s) st)
  | ChildExit =>
      (t, updSession (turnSession t)
            (fun s => setRunning (onExit <$> running s) s) st)
  end.

Definition runEvents (evs : list TurnEvent) (ts : Turn * Agent) : Turn * Agent :=
  fold_left turnStep evs ts.

(** A whole call of [prompt] whose child exits: the events of the turn in the
    order the event loop delivers them, all of them before [finalize] runs,
    then the resolution with the child's [exitCode] *)
Definition prompt (sid : string) (chunks : list PromptChunk)
  (evs : list TurnEvent) (exitCode : option Z) (st : Agent) : Outcome StopReason :=
  match promptStart sid chunks st with
  | Returns t st1 =>
      let (t', st2) := runEvents evs (t, st1) in
      let (reason, st3) := finalize exitCode t' st2 in
      Returns reason st3
  | Throws e st' => Throws e st'
  | OnBuiltin => OnBuiltin
  end.

(** ** Notions the statements below are phrased with *)

Definition isCancelRequest (ev : TurnEvent) : bool :=
  match ev with CancelRequest => true | _ => false end.

(** The stop-reason a turn event records *)
Definition lineStop (ev : TurnEvent) : option StopReason :=
  match ev with
  | StdoutLine (Json evt) => resultStopReason evt
  | _ => None
  end.

(** The stop-reason captured during a turn: that of the last event that
    records one *)
Fixpoint capturedStop (evs : list TurnEvent) : option StopReason :=
  match evs with
  | [] => None
  | ev :: rest => match capturedStop rest with
                  | Some r => Some r
                  | None => lineStop ev
                  end
  end.

(** The fall-back of [finalize] on the exit code *)
Definition exitStop (exitCode : option Z) : StopReason :=
  match exitCode with
  | Some 0 => EndTurn
  | _ => Refusal
  end.

(** Whether the mapper returns on an event; neither the session id nor the
    last assistant text bears on it ([mapperReturns_spec]) *)
Definition mapperReturns (evt : value) : bool :=
  match mapCursorEventToAcp "" evt "" with
  | Normal _ => true
  | Throw _ => false
  end.

(** The session id a turn event offers for capture: the truthy [session_id]
    of a line whose [try] block runs to its end, otherwise [undefined] *)
Definition offeredId (ev : TurnEvent) : value :=
  match ev with
  | StdoutLine (Json evt) =>
      if mapperReturns evt && truthy (prop evt "session_id")
      then prop evt "session_id" else VUndef
  | _ => VUndef
  end.

(** The first id a sequence of turn events offers *)
Fixpoint firstOfferedId (evs : list TurnEvent) : value :=
  match evs with
  | [] => VUndef
  | ev :: rest => if truthy (offeredId ev) then offeredId ev else firstOfferedId rest
  end.

(** A session after turn events among which a cancel request occurred or
    not, and which offered the id [offer]; the process handle apart *)
Definition sessionAfter (s : SessionState) (cancelReq : bool) (offer : value)
  : SessionState :=
  mkSession (cwd s) (cancelled s || cancelReq)
    (if truthy (resumeId s) then resumeId s
     else if truthy offer then offer else resumeId s)
    (modeId s) (running s).

(** The four flags every spawn passes *)
Definition baseArgs : list value :=
  [ VStr "--print"; VStr "--output-format"; VStr "stream-json";
    VStr "--stream-partial-output" ].





Definition chunk (sid : string) (delta : string) : SessionNotification :=
  {| sessionId := sid; update := AgentMessageChunk delta |}.

(** Whether [String(v)] returns: no object with an own [toString] member is
    reached through arrays *)
Fixpoint convertible (v : value) : bool :=
  match v with
  | VArr l => forallb convertible l
  | VObj ps => negb (hasOwn "toString" ps)
  | _ => true
  end.

(** The arguments a title may render are all convertible *)
Definition titleArgsConvertible (args : value) : bool :=
  convertible (prop args "path") && convertible (prop args "pattern")
  && convertible (prop args "command") && convertible (prop args "cmd")
  && convertible (prop args "commands").

(** The values a content block may render are convertible *)
Definition contentConvertible (args result : value) : bool :=
  convertible (prop result "content" ?? prop args "content" ?? VStr "")
  && convertible (shellOutput result).


(** Whether a notification is a text chunk *)
Definition isTextChunk (n : SessionNotification) : bool :=
  match update n with AgentMessageChunk _ => true | _ => false end.

(** Whether a prompt chunk contributes text to the prompt *)
Definition isTextual (chunk : PromptChunk) : bool :=
  match chunk with
  | ChunkText _ | ChunkResourceText _ | ChunkResourceLink _ => true
  | _ => false
  end.

(** The notifications one turn event sends, and the variables of the turn
    after it; neither depends on the agent's state ([turnStep_outbox]) *)
Definition stepNotes (t : Turn) (ev : TurnEvent) : list SessionNotification :=
  match ev with
  | StdoutLine (Json evt) =>
      tryCatch (mapCursorEventToAcp (turnSession t) evt (lastAssistantText t)) []
  | StderrData s =>
      if testCI "login" s && testCI "cursor-agent" s
      then [ chunk (turnSession t) authHint ] else []
  | _ => []
  end.

Definition stepTurn (t : Turn) (ev : TurnEvent) : Turn :=
  (turnStep (t, mkAgent ∅ []) ev).1.

(** The notifications the events of a turn send, in their order *)
Fixpoint turnNotes (t : Turn) (evs : list TurnEvent) : list SessionNotification :=
  match evs with
  | [] => []
  | ev :: rest => (stepNotes t ev ++ turnNotes (stepTurn t ev) rest)%list
  end.

(** The stop-reason of a turn, by the priority of [finalize] *)
Definition turnReason (evs : list TurnEvent) (exitCode : option Z) : StopReason :=
  if existsb isCancelRequest evs then Cancelled
  else match capturedStop evs with
       | Some r => r
       | None => exitStop exitCode
       end.

(** A string with its ASCII capitals lowered *)
Fixpoint lowerCase (s : string) : string :=
  match s with
  | EmptyString => EmptyString
  | String c r => String (toLowerAscii c) (lowerCase r)
  end.

(** [s] has a part that is [p] up to the case of ASCII letters *)
Definition containsCI (p s : string) : Prop :=
  ∃ a m b, s = a +:+ m +:+ b ∧ lowerCase m = p.


(** A turn event that sends nothing: a line that is no JSON, an event that is
    neither an assistant nor a tool_call event, a cancel request, a timer,
    the exit of the process *)
Definition quietEvent (ev : TurnEvent) : Prop :=
  match ev with
  | StdoutLine NotJson => True
  | StdoutLine (Json evt) =>
      prop evt "type" ≠ VStr "assistant" ∧ prop evt "type" ≠ VStr "tool_call"
  | StderrData _ => False
  | CancelRequest => True
  | KillTimer => True
  | ChildExit => True
  end.

(** * Properties *)

(** ** The classifiers on sample inputs *)

Example title_read :
  buildToolTitle "readToolCall" (VObj [ ("path", VStr "src/a.ts") ]) = Normal "Read src/a.ts".
Proof. reflexivity. Qed.

Example title_shell_commands :
  buildToolTitle "shellToolCall"
    (VObj [ ("commands", VArr [ VStr "cd x"; VNull; VStr "ls" ]) ])
  = Normal "`cd x &&  && ls`".
Proof. reflexivity. Qed.

Example title_unknown_kind : buildToolTitle "mcpToolCall" (VObj []) = Normal "mcpToolCall".
Proof. reflexivity. Qed.

Example title_toString_trap :
  buildToolTitle "globToolCall" (VObj [ ("pattern", VObj [ ("toString", VNull) ]) ])
  = Throw TypeError.
Proof. reflexivity. Qed.

Example kind_samples :
  map inferToolKind [ "readToolCall"; "writeToolCall"; "grepToolCall"; "globToolCall";
                      "bashToolCall"; "shellToolCall"; "Other" ]
  = [ KRead; KEdit; KSearch; KSearch; KExecute; KExecute; KOther ].
Proof. reflexivity. Qed.

Example locations_from_result :
  toLocationsFromResult
    (VObj [ ("matches", VArr [ VObj [ ("path", VStr "a.ts"); ("line", VNum 7) ];
                               VStr "b.ts"; VNum 3 ]);
            ("files", VArr [ VStr "c.ts" ]) ])
  = Some [ {| path := "a.ts"; line := Some 7 |}; {| path := "b.ts"; line := None |};
           {| path := "c.ts"; line := None |} ].
Proof. reflexivity. Qed.

Example locations_from_nothing :
  toLocationsFromArgs (VObj [ ("path", VNum 1) ]) = None
  ∧ toLocationsFromResult VNull = None.
Proof. split; reflexivity. Qed.

Example summary_grep :
  summarizeSearchResult (Some "grepToolCall") (VObj [ ("pattern", VStr "TODO") ])
    (VObj [ ("matches", VArr [ VStr "a"; VStr "b" ]) ])
  = Some "Found 2 match(es) for TODO".
Proof. by vm_compute. Qed.

Example summary_swallows_the_trap :
  summarizeSearchResult (Some "globToolCall")
    (VObj [ ("pattern", VObj [ ("toString", VNull) ]) ]) (VObj [])
  = None.
Proof. reflexivity. Qed.

(** ** Values *)

Lemma isStr_true v s : isStr v s = true ↔ v = VStr s.
Proof.
  destruct v; simpl; try (split; [discriminate | intros [=]]).
  rewrite String.eqb_eq. split; [intros -> | intros [=]]; done.
Qed.

Lemma isStr_false v s : v ≠ VStr s → isStr v s = false.
Proof.
  intros Hne. destruct (isStr v s) eqn:E; [|done].
  apply isStr_true in E. done.
Qed.

Lemma prop_nullish v k : nullish v = true → prop v k = VUndef.
Proof. destruct v; simpl; done. Qed.

Lemma prop_str_not_nullish v k s : prop v k = VStr s → nullish v = false.
Proof.
  intros H. destruct (nullish v) eqn:E; [|done].
  rewrite (prop_nullish _ _ E) in H. done.
Qed.

(** ** The mapper, case by case *)

Lemma mapper_tool_call sid evt last :
  prop evt "type" = VStr "tool_call" →
  mapCursorEventToAcp sid evt last = mapToolCall sid evt.
Proof.
  intros Ht. unfold mapCursorEventToAcp, get.
  rewrite (prop_str_not_nullish _ _ _ Ht), Ht. done.
Qed.

Lemma mapper_assistant sid evt last :
  prop evt "type" = VStr "assistant" →
  mapCursorEventToAcp sid evt last = mapAssistant sid evt last.
Proof.
  intros Ht. unfold mapCursorEventToAcp, get.
  rewrite (prop_str_not_nullish _ _ _ Ht), Ht. done.
Qed.

Lemma mapper_other sid evt last :
  nullish evt = false →
  prop evt "type" ≠ VStr "assistant" →
  prop evt "type" ≠ VStr "tool_call" →
  mapCursorEventToAcp sid evt last = Normal [].
Proof.
  intros Hn Ha Ht. unfold mapCursorEventToAcp, get. rewrite Hn. simpl.
  rewrite (isStr_false _ _ Ha), (isStr_false _ _ Ht).
  by destruct (isStr _ "user").
Qed.

Lemma mapper_result sid evt last r :
  resultStopReason evt = Some r →
  mapCursorEventToAcp sid evt last = Normal [].
Proof.
  unfold resultStopReason. intros H.
  destruct (isStr (prop evt "type") "result") eqn:E; [|done].
  apply isStr_true in E. apply mapper_other.
  - by eapply prop_str_not_nullish.
  - rewrite E. done.
  - rewrite E. done.
Qed.

(** C10. A tool_call event whose subtype is neither "started" nor
    "completed" (a missing subtype included) maps to no notification. *)
Theorem tool_call_other_subtype_maps_to_nothing sid evt last :
  prop evt "type" = VStr "tool_call" →
  prop evt "subtype" ≠ VStr "started" →
  prop evt "subtype" ≠ VStr "completed" →
  mapCursorEventToAcp sid evt last = Normal [].
Proof.
  intros Ht Hs Hc. rewrite mapper_tool_call by done.
  unfold mapToolCall. by rewrite (isStr_false _ _ Hs), (isStr_false _ _ Hc).
Qed.

Lemma tool_call_other_subtype_witness :
  mapCursorEventToAcp "s1"
    (VObj [ ("type", VStr "tool_call"); ("subtype", VStr "progress");
            ("call_id", VStr "c1");
            ("tool_call", VObj [ ("readToolCall", VObj [ ("args", VObj [ ("path", VStr "a.txt") ]) ]) ]) ])
    "" = Normal []
  ∧ mapCursorEventToAcp "s1"
      (VObj [ ("type", VStr "tool_call"); ("call_id", VStr "c1") ]) "seen" = Normal [].
Proof.
  split; apply tool_call_other_subtype_maps_to_nothing; simpl; done.
Defined.

(** ** The session verbs *)

Section Registry.
Context (st : Agent) (sid : string).

Lemma sessionsGet_own s :
  sessions st !! sid = Some s → sessionsGet (sessions st) sid = Own s.
Proof. unfold sessionsGet. by intros ->. Qed.

Lemma sessionsGet_absent :
  sessions st !! sid = None → sid ∉ objectPrototypeKeys →
  sessionsGet (sessions st) sid = Absent.
Proof.
  unfold sessionsGet. intros -> Hn. by rewrite bool_decide_eq_false_2.
Qed.

Lemma updSession_lookup f s :
  sessions st !! sid = Some s →
  sessions (updSession sid f st) !! sid = Some (f s).
Proof. intros H. simpl. by rewrite lookup_alter_eq, H. Qed.

Lemma updSession_other f sid' :
  sid ≠ sid' →
  sessions (updSession sid f st) !! sid' = sessions st !! sid'.
Proof. intros H. simpl. by rewrite lookup_alter_ne. Qed.
End Registry.



(** C5, as the code has it. For an id that is neither registered nor the
    name of a member of [Object.prototype], [prompt], [cancel] and
    [setSessionMode] throw "Session not found" and leave the state as it was.
    [setSessionModel] looks no session up: it returns for every id and leaves
    the state as it was. *)
Theorem unknown_session_verbs st sid :
  sessions st !! sid = None →
  sid ∉ objectPrototypeKeys →
  (∀ chunks evs exitCode,
     prompt sid chunks evs exitCode st = Throws (Error "Session not found") st)
  ∧ cancel sid st = Throws (Error "Session not found") st
  ∧ (∀ mode, setSessionMode sid mode st = Throws (Error "Session not found") st)
  ∧ (∀ model, setSessionModel sid model st = Returns tt st).
Proof.
  intros Hs Hk. pose proof (sessionsGet_absent _ _ Hs Hk) as Ha.
  repeat split; intros; unfold prompt, promptStart, cancel, setSessionMode;
    rewrite ?Ha; done.
Qed.

Lemma unknown_session_verbs_witness :
  let st := newSession "s1" None (mkAgent ∅ []) in
  prompt "s2" [ChunkText "hi"] [StdoutLine NotJson] (Some 0) st
    = Throws (Error "Session not found") st
  ∧ cancel "s2" st = Throws (Error "Session not found") st
  ∧ setSessionMode "s2" "plan" st = Throws (Error "Session not found") st
  ∧ setSessionModel "s2" "default" st = Returns tt st.
Proof.
  intros st.
  assert (Hs : sessions st !! "s2" = None) by (by vm_compute).
  assert (Hk : "s2" ∉ objectPrototypeKeys).
  { apply (bool_decide_eq_false_1 ("s2" ∈ objectPrototypeKeys)). by vm_compute. }
  destruct (unknown_session_verbs st "s2" Hs Hk) as (Hp & Hc & Hm & Hl).
  split; [apply Hp | split; [apply Hc | split; [apply Hm | apply Hl]]].
Defined.

(** C5 as stated fails on [setSessionModel]: called with an id that is not
    registered it returns and does not fail. *)
Lemma setSessionModel_unknown_session_returns :
  let st := mkAgent ∅ [] in
  sessions st !! "ghost" = None
  ∧ setSessionModel "ghost" "default" st = Returns tt st
  ∧ ∀ e st', setSessionModel "ghost" "default" st ≠ Throws e st'.
Proof. repeat split; done. Qed.

(** An id that names a member of [Object.prototype] is not "not found": the
    verbs go on with the built-in. *)
Example cancel_constructor_found :
  sessions (mkAgent ∅ []) !! "constructor" = None
  ∧ cancel "constructor" (mkAgent ∅ []) = OnBuiltin.
Proof. split; by vm_compute. Qed.

(** ** The prompt turn *)

Lemma completion_cases {A} (c : completion A) :
  (∃ a, c = Normal a) ∨ (∃ e, c = Throw e).
Proof. destruct c; eauto. Qed.

Lemma mapAssistant_returns sid sid' evt last last' notes :
  mapAssistant sid evt last = Normal notes →
  ∃ notes', mapAssistant sid' evt last' = Normal notes'.
Proof.
  unfold mapAssistant.
  destruct (assistantText evt) as [| |b|n|t|l|ps]; simpl; try done; eauto.
  intros _. repeat case_match; eauto.
Qed.

Lemma mapToolCall_returns sid sid' evt notes :
  mapToolCall sid evt = Normal notes →
  ∃ notes', mapToolCall sid' evt = Normal notes'.
Proof.
  unfold mapToolCall.
  destruct (isStr (prop evt "subtype") "started").
  { destruct (buildToolTitle _ _); simpl; [eauto | done]. }
  destruct (isStr (prop evt "subtype") "completed"); [|eauto].
  destruct (completedContent _ _ _); simpl; [eauto | done].
Qed.

Lemma mapper_returns sid sid' evt last last' notes :
  mapCursorEventToAcp sid evt last = Normal notes →
  ∃ notes', mapCursorEventToAcp sid' evt last' = Normal notes'.
Proof.
  unfold mapCursorEventToAcp, get. destruct (nullish evt); simpl; [done|].
  repeat case_match; eauto using mapAssistant_returns, mapToolCall_returns.
Qed.

Lemma mapperReturns_spec sid evt last :
  mapperReturns evt = true ↔ ∃ notes, mapCursorEventToAcp sid evt last = Normal notes.
Proof.
  unfold mapperReturns. split.
  - destruct (mapCursorEventToAcp "" evt "") eqn:E; [|done].
    intros _. eapply mapper_returns, E.
  - intros [notes H]. destruct (mapper_returns _ "" _ _ "" _ H) as [n' ->]. done.
Qed.

Lemma mapperReturns_false sid evt last :
  mapperReturns evt = false ↔ ∃ e, mapCursorEventToAcp sid evt last = Throw e.
Proof.
  split.
  - intros H. destruct (mapCursorEventToAcp sid evt last) eqn:E; [|eauto].
    assert (mapperReturns evt = true) by (apply (mapperReturns_spec sid evt last); eauto).
    congruence.
  - intros [e H]. destruct (mapperReturns evt) eqn:E; [|done].
    apply (mapperReturns_spec sid evt last) in E as [n E]. congruence.
Qed.

Lemma resultStop_returns evt r : resultStopReason evt = Some r → mapperReturns evt = true.
Proof.
  intros H. apply (mapperReturns_spec "" evt ""). eauto using mapper_result.
Qed.

(** A line on which the [try] block throws leaves the turn and the agent as
    they were. *)
Lemma onLine_skipped line t st :
  (line = NotJson ∨ ∃ evt, line = Json evt ∧ mapperReturns evt = false) →
  onLine line t st = (t, st).
Proof.
  intros [-> | (evt & -> & H)]; [done|].
  apply (mapperReturns_false (turnSession t) evt (lastAssistantText t)) in H as [e H].
  unfold onLine, onLineBody. simpl. by rewrite H.
Qed.

Lemma sessionAfter_id s : sessionAfter s false VUndef = s.
Proof.
  destruct s as [c b r m p]. unfold sessionAfter. simpl.
  rewrite orb_false_r. by destruct (truthy r).
Qed.

Lemma sessionAfter_compose s c1 o1 c2 o2 :
  sessionAfter (sessionAfter s c1 o1) c2 o2
  = sessionAfter s (c1 || c2) (if truthy o1 then o1 else o2).
Proof.
  destruct s as [c b r m p]. unfold sessionAfter. simpl.
  rewrite orb_assoc. f_equal.
  destruct (truthy r) eqn:Er; simpl; [by rewrite Er|].
  destruct (truthy o1) eqn:E1; simpl; [by rewrite E1|].
  rewrite Er. done.
Qed.

Lemma setRunning_id s : setRunning (running s) s = s.
Proof. by destruct s. Qed.

Lemma setRunning_sessionAfter r r' s c o :
  setRunning r (sessionAfter (setRunning r' s) c o) = setRunning r (sessionAfter s c o).
Proof. done. Qed.

(** One turn event: what it does to the variables of the turn and to the
    session of the turn, whose process handle [r] only a cancel request and a
    timer change; it touches no other session. *)
Lemma turnStep_spec t st ev s :
  sessions st !! turnSession t = Some s →
  ∃ t' st' r,
    turnStep (t, st) ev = (t', st')
    ∧ turnSession t' = turnSession t
    ∧ stopReason t' = match lineStop ev with
                      | Some r => Some r
                      | None => stopReason t
                      end
    ∧ sessions st' !! turnSession t
      = Some (setRunning r (sessionAfter s (isCancelRequest ev) (offeredId ev)))
    ∧ ∀ sid', turnSession t ≠ sid' → sessions st' !! sid' = sessions st !! sid'.
Proof.
  intros Hs. destruct ev as [[|evt]|err| | |]; simpl.
  - exists t, st, (running s). rewrite sessionAfter_id, setRunning_id. by destruct t.
  - destruct (mapperReturns evt) eqn:Hret.
    + apply (mapperReturns_spec (turnSession t) evt (lastAssistantText t)) in Hret
        as [notes Hn].
      unfold onLine, onLineBody. simpl. rewrite Hn. simpl.
      eexists _, _, (running s). split; [reflexivity|]. simpl.
      split; [done|]. split; [by destruct (resultStopReason evt)|].
      destruct (truthy (prop evt "session_id")) eqn:Hsid; simpl.
      * rewrite lookup_alter_eq, Hs. simpl. split.
        -- f_equal. destruct s as [c b r m p]. unfold sessionAfter, setRunning. simpl.
           rewrite orb_false_r, Hsid. by destruct (truthy r).
        -- intros sid' Hne. by rewrite lookup_alter_ne.
      * rewrite sessionAfter_id, setRunning_id. done.
    + rewrite onLine_skipped by eauto.
      exists t, st, (running s). rewrite sessionAfter_id, setRunning_id.
      destruct (resultStopReason evt) eqn:Hr.
      * apply resultStop_returns in Hr. congruence.
      * done.
  - unfold onStderr. exists t. eexists _, (running s). split; [reflexivity|].
    rewrite sessionAfter_id, setRunning_id. by case_match.
  - unfold cancel. rewrite (sessionsGet_own _ _ _ Hs).
    eexists _, _, (cancelChild <$> running s). split; [reflexivity|]. simpl.
    rewrite lookup_alter_eq, Hs. simpl. repeat split.
    + f_equal. destruct s as [c b r m p]. unfold sessionAfter, setRunning. simpl.
      rewrite orb_true_r. by destruct (truthy r).
    + intros sid' Hne. by rewrite lookup_alter_ne.
  - eexists _, _, (onKillTimer <$> running s). split; [reflexivity|]. simpl.
    rewrite lookup_alter_eq, Hs, sessionAfter_id. simpl. repeat split.
    intros sid' Hne. by rewrite lookup_alter_ne.
  - eexists _, _, (onExit <$> running s). split; [reflexivity|]. simpl.
    rewrite lookup_alter_eq, Hs, sessionAfter_id. simpl. repeat split.
    intros sid' Hne. by rewrite lookup_alter_ne.
Qed.

Lemma capturedStop_cons ev evs o :
  match capturedStop (ev :: evs) with Some r => Some r | None => o end
  = match capturedStop evs with
    | Some r => Some r
    | None => match lineStop ev with Some r => Some r | None => o end
    end.
Proof. simpl. by destruct (capturedStop evs). Qed.

(** The events of a turn, taken together *)
Lemma runEvents_spec evs : ∀ t st s,
  sessions st !! turnSession t = Some s →
  ∃ t' st' r,
    runEvents evs (t, st) = (t', st')
    ∧ turnSession t' = turnSession t
    ∧ stopReason t' = match capturedStop evs with
                      | Some r => Some r
                      | None => stopReason t
                      end
    ∧ sessions st' !! turnSession t
      = Some (setRunning r
                (sessionAfter s (existsb isCancelRequest evs) (firstOfferedId evs)))
    ∧ ∀ sid', turnSession t ≠ sid' → sessions st' !! sid' = sessions st !! sid'.
Proof.
  induction evs as [|ev evs IH]; intros t st s Hs.
  - exists t, st, (running s). rewrite sessionAfter_id, setRunning_id. done.
  - destruct (turnStep_spec t st ev s Hs)
      as (t1 & st1 & r1 & Hstep & Hsid & Hstop & Hl & Ho).
    rewrite <- Hsid in Hl.
    destruct (IH t1 st1 _ Hl) as (t2 & st2 & r2 & Hrun & Hsid2 & Hstop2 & Hl2 & Ho2).
    exists t2, st2, r2.
    change (runEvents (ev :: evs) (t, st)) with (runEvents evs (turnStep (t, st) ev)).
    rewrite Hstep, Hrun.
    split; [done|]. split; [congruence|]. split.
    { rewrite Hstop2, Hstop. symmetry. apply capturedStop_cons. }
    split.
    { rewrite <- Hsid, Hl2, setRunning_sessionAfter, sessionAfter_compose. done. }
    intros sid' Hne. rewrite <- Ho by done. apply Ho2. congruence.
Qed.

(** C2. A call of [prompt] on a registered session returns, and its
    stop-reason follows the priority: cancelled when the session's flag is set
    at resolution, which within a turn is the case exactly when a cancel
    request arrived; otherwise the stop-reason of the last result event that
    recorded one (success: end_turn, cancelled: cancelled, error, failure and
    refused: refusal); otherwise end_turn for exit code zero and refusal for
    any other exit code or none. *)
Theorem prompt_stop_reason st sid s chunks evs exitCode :
  sessions st !! sid = Some s →
  (∀ t st1 s1, sessions st1 !! turnSession t = Some s1 →
     (finalize exitCode t st1).1
     = if cancelled s1 then Cancelled
       else match stopReason t with
            | Some r => r
            | None => if bool_decide (exitCode = Some 0) then EndTurn else Refusal
            end)
  ∧ (∃ st', prompt sid chunks evs exitCode st
            = Returns (if existsb isCancelRequest evs then Cancelled
                       else match capturedStop evs with
                            | Some r => r
                            | None => if bool_decide (exitCode = Some 0)
                                      then EndTurn else Refusal
                            end) st')
  ∧ (∀ evt sub, prop evt "type" = VStr "result" → prop evt "subtype" = VStr sub →
       resultStopReason evt
       = if bool_decide (sub = "success") then Some EndTurn
         else if bool_decide (sub = "cancelled") then Some Cancelled
         else if bool_decide (sub ∈ ["error"; "failure"; "refused"]) then Some Refusal
         else None).
Proof.
  intros Hs.
  assert (Hexit : ∀ c : option Z,
    match c with Some 0 => EndTurn | _ => Refusal end
    = if bool_decide (c = Some 0) then EndTurn else Refusal).
  { intros [[| |]|]; done. }
  split; [|split].
  - intros t st1 s1 H1. unfold finalize. simpl. rewrite H1, Hexit. done.
  - unfold prompt, promptStart. rewrite (sessionsGet_own _ _ _ Hs).
    set (st1 := updSession sid _ st).
    assert (H1 : sessions st1 !! turnSession (mkTurn sid None "")
                 = Some (setRunning (Some (Spawned (spawnArgs s
                     (planPrefix (modeId s) +:+ concatPromptChunks chunks))))
                     (setCancelled false s))).
    { subst st1. simpl. by rewrite lookup_alter_eq, Hs. }
    destruct (runEvents_spec evs _ _ _ H1)
      as (t' & st2 & r & Hrun & Hsid & Hstop & Hl & _).
    rewrite Hrun. unfold finalize. simpl in Hsid, Hstop, Hl. rewrite Hsid, Hl, Hstop.
    simpl. rewrite Hexit. eexists. by destruct (capturedStop evs).
  - intros evt sub Ht Hsub. unfold resultStopReason. rewrite Ht, Hsub. simpl.
    destruct (String.eqb_spec sub "success") as [->|H1]; [done|].
    rewrite (bool_decide_eq_false_2 _ H1).
    destruct (String.eqb_spec sub "cancelled") as [->|H2]; [done|].
    rewrite (bool_decide_eq_false_2 _ H2).
    destruct (String.eqb_spec sub "error") as [->|H3]; [done|].
    destruct (String.eqb_spec sub "failure") as [->|H4]; [done|].
    destruct (String.eqb_spec sub "refused") as [->|H5]; [done|].
    rewrite bool_decide_eq_false_2; [done|].
    intros Hin. repeat (apply elem_of_cons in Hin as [?|Hin]; [done|]).
    by apply elem_of_nil in Hin.
Qed.

Lemma prompt_stop_reason_witness :
  let st := newSession "s1" None (mkAgent ∅ []) in
  let success := StdoutLine (Json (VObj [ ("type", VStr "result"); ("subtype", VStr "success") ])) in
  let failure := StdoutLine (Json (VObj [ ("type", VStr "result"); ("subtype", VStr "failure") ])) in
  (∃ st', prompt "s1" [ChunkText "hi"] [success; CancelRequest] (Some 0) st
          = Returns Cancelled st')
  ∧ (∃ st', prompt "s1" [ChunkText "hi"] [failure] (Some 0) st = Returns Refusal st')
  ∧ (∃ st', prompt "s1" [ChunkText "hi"] [StdoutLine NotJson] (Some 0) st
            = Returns EndTurn st')
  ∧ (∃ st', prompt "s1" [ChunkText "hi"] [] None st = Returns Refusal st').
Proof.
  intros st success failure.
  assert (Hs : sessions st !! "s1" = Some (mkSession None false VUndef ModeDefault None))
    by apply lookup_insert_eq.
  pose proof (λ evs code, proj1 (proj2 (prompt_stop_reason st "s1" _ [ChunkText "hi"] evs code Hs)))
    as H.
  split; [exact (H [success; CancelRequest] (Some 0))|].
  split; [exact (H [failure] (Some 0))|].
  split; [exact (H [StdoutLine NotJson] (Some 0))|].
  exact (H [] None).
Defined.

(** An update of a session that keeps its resume handle keeps the handle of
    every session. *)
Lemma updSession_resumeId st sid sid' f :
  (∀ s, resumeId (f s) = resumeId s) →
  resumeId <$> sessions (updSession sid' f st) !! sid = resumeId <$> sessions st !! sid.
Proof.
  intros Hf. simpl. rewrite lookup_alter. case_decide as E; [|done].
  subst sid'. destruct (sessions st !! sid); simpl; [|done]. by rewrite Hf.
Qed.

(** C6, as the code has it. Over a turn of a registered session the resume
    handle, when the session has a truthy one, stays as it is whatever
    [session_id] values the events carry; when it has none it becomes the
    [session_id] of the first event that is processed to the end of the
    handler and whose [session_id] is truthy, and stays unset when there is no
    such event. [cancel] and [setSessionMode] keep the handle. A prompt turn
    of a session with a truthy handle spawns the process with ["--resume"]
    and the handle right after the four fixed flags; without one the flags
    are followed by the prompt text at most. *)
Theorem resume_handle_first_truthy_wins st sid s chunks evs exitCode :
  sessions st !! sid = Some s →
  (∃ r st' s', prompt sid chunks evs exitCode st = Returns r st'
      ∧ sessions st' !! sid = Some s'
      ∧ resumeId s' = if truthy (resumeId s) then resumeId s
                      else if truthy (firstOfferedId evs) then firstOfferedId evs
                      else resumeId s)
  ∧ (∃ t st1 rest, promptStart sid chunks st = Returns t st1
       ∧ running <$> sessions st1 !! sid
         = Some (Some (Spawned
             (baseArgs
              ++ (if truthy (resumeId s) then [ VStr "--resume"; resumeId s ] else [])
              ++ rest)%list))
       ∧ (List.length rest ≤ 1)%nat)
  ∧ (∀ sid' u st', cancel sid' st = Returns u st' →
       resumeId <$> sessions st' !! sid = Some (resumeId s))
  ∧ (∀ sid' mode u st', setSessionMode sid' mode st = Returns u st' →
       resumeId <$> sessions st' !! sid = Some (resumeId s)).
Proof.
  intros Hs. split; [|split; [|split]].
  - unfold prompt, promptStart. rewrite (sessionsGet_own _ _ _ Hs).
    set (st1 := updSession sid _ st).
    assert (∃ s1, sessions st1 !! turnSession (mkTurn sid None "") = Some s1
                  ∧ resumeId s1 = resumeId s) as (s1 & H1 & Hr1).
    { subst st1. simpl. rewrite lookup_alter_eq, Hs. simpl. eauto. }
    destruct (runEvents_spec evs _ _ _ H1) as (t' & st2 & r & Hrun & Hsid & _ & Hl & _).
    rewrite Hrun. unfold finalize. simpl in Hsid, Hl.
    eexists _, _, _. split; [reflexivity|]. simpl.
    rewrite Hsid, lookup_alter_eq, Hl. simpl. split; [reflexivity|].
    simpl. by rewrite Hr1.
  - unfold promptStart. rewrite (sessionsGet_own _ _ _ Hs).
    eexists _, _, _. split; [reflexivity|]. simpl.
    rewrite lookup_alter_eq, Hs. simpl. unfold spawnArgs. split; [reflexivity|].
    case_match; simpl; lia.
  - intros sid' u st'. unfold cancel. destruct (sessionsGet _ sid'); [|done..].
    intros [= _ <-]. rewrite updSession_resumeId by done. by rewrite Hs.
  - intros sid' mode u st'. unfold setSessionMode.
    destruct (sessionsGet _ sid'); [|done..].
    destruct (mode =? "default")%string;
      [|destruct (mode =? "plan")%string; [|done]];
      intros [= _ <-]; simpl; rewrite lookup_alter;
      (case_decide as E; [subst sid'|]); by rewrite Hs.
Qed.

Lemma resume_handle_witness :
  let st := newSession "s1" None (mkAgent ∅ []) in
  let ev id := StdoutLine (Json (VObj [ ("type", VStr "system"); ("session_id", VStr id) ])) in
  ∃ r st' s',
    prompt "s1" [ChunkText "hi"] [StdoutLine NotJson; ev "abc"; ev "zzz"] (Some 0) st
    = Returns r st'
    ∧ sessions st' !! "s1" = Some s'
    ∧ resumeId s' = VStr "abc".
Proof.
  intros st ev.
  assert (Hs : sessions st !! "s1" = Some (mkSession None false VUndef ModeDefault None))
    by apply lookup_insert_eq.
  destruct (resume_handle_first_truthy_wins st "s1" _ [ChunkText "hi"]
              [StdoutLine NotJson; ev "abc"; ev "zzz"] (Some 0) Hs)
    as [(r & st' & s' & Hp & Hl & Hr) _].
  exists r, st', s'. split; [exact Hp|]. split; [exact Hl|]. exact Hr.
Defined.

(** C6 as stated fails on an event that carries a falsy [session_id]: the
    first event below is processed to the end of the handler and carries a
    [session_id] member, yet the handle is taken from the second. *)
Lemma resume_handle_skips_falsy_session_id :
  let e1 := VObj [ ("type", VStr "system"); ("session_id", VStr "") ] in
  let e2 := VObj [ ("type", VStr "system"); ("session_id", VStr "abc") ] in
  let st := newSession "s1" None (mkAgent ∅ []) in
  resumeId <$> sessions st !! "s1" = Some VUndef
  ∧ onLineBody (Json e1) (mkTurn "s1" None "") st = Normal (mkTurn "s1" None "", st)
  ∧ prop e1 "session_id" = VStr ""
  ∧ ∃ r st', prompt "s1" [] [StdoutLine (Json e1); StdoutLine (Json e2)] (Some 0) st
             = Returns r st'
             ∧ resumeId <$> sessions st' !! "s1" = Some (VStr "abc").
Proof.
  intros e1 e2 st. split; [by vm_compute|]. split.
  { by vm_compute. }
  split; [done|]. eexists _, _. split; [by vm_compute|]. by vm_compute.
Qed.

(** ** Assistant text deltas *)

Lemma append_cons a s t : String a s +:+ t = String a (s +:+ t).
Proof. reflexivity. Qed.

Lemma append_empty_r s : s +:+ "" = s.
Proof. induction s as [|a s IH]; [done|]. by rewrite append_cons, IH. Qed.

Lemma append_assoc s t u : (s +:+ t) +:+ u = s +:+ (t +:+ u).
Proof. induction s as [|a s IH]; [done|]. by rewrite !append_cons, IH. Qed.

Lemma startsWith_slice p : ∀ t,
  startsWith t p = true → p +:+ sliceFrom (String.length p) t = t.
Proof.
  induction p as [|a p IH]; intros t; simpl; [reflexivity|].
  destruct t as [|b t]; simpl; [done|].
  destruct (Ascii.eqb_spec a b) as [->|]; [|done].
  intros H. by rewrite append_cons, (IH _ H).
Qed.

Lemma startsWith_nonempty_delta t p :
  startsWith t p = true → t ≠ p → sliceFrom (String.length p) t ≠ "".
Proof.
  intros H Hne Hd. apply startsWith_slice in H. rewrite Hd, append_empty_r in H.
  congruence.
Qed.


Lemma resultStop_assistant evt :
  prop evt "type" = VStr "assistant" → resultStopReason evt = None.
Proof. unfold resultStopReason. by intros ->. Qed.






(** ** String conversion *)

Lemma value_ind_arr (P : value → Prop) :
  P VUndef → P VNull → (∀ b, P (VBool b)) → (∀ n, P (VNum n)) →
  (∀ s, P (VStr s)) → (∀ l, Forall P l → P (VArr l)) → (∀ ps, P (VObj ps)) →
  ∀ v, P v.
Proof.
  intros Hu Hn Hb Hz Hs Ha Ho. fix IH 1. intros [| |b|n|s|l|ps].
  - exact Hu.
  - exact Hn.
  - apply Hb.
  - apply Hz.
  - apply Hs.
  - apply Ha. induction l as [|x l IHl]; constructor; [apply IH | exact IHl].
  - apply Ho.
Qed.

Lemma ToString_arr l : ToString (VArr l) = arrayJoin "," l.
Proof. reflexivity. Qed.

(** [String(v)] returns exactly on the convertible values, and throws a
    [TypeError] on the others. *)
Lemma ToString_cases v :
  (∃ s, ToString v = Normal s ∧ convertible v = true)
  ∨ (ToString v = Throw TypeError ∧ convertible v = false).
Proof.
  induction v as [| |b|n|s|l IH|ps] using value_ind_arr;
    try (simpl; eauto; fail).
  - rewrite ToString_arr. unfold arrayJoin.
    change (convertible (VArr l)) with (forallb convertible l).
    assert ((∃ ss, elemsToStrings l = Normal ss ∧ forallb convertible l = true)
            ∨ (elemsToStrings l = Throw TypeError ∧ forallb convertible l = false))
      as [(ss & -> & ->) | [-> ->]]; [|simpl; eauto..].
    induction IH as [|x l Hx _ IHl]; simpl; [eauto|].
    unfold elemToString.
    destruct Hx as [(s & Hs & Hc) | [Ht Hc]]; rewrite Hc.
    + assert (E : (if nullish x then Normal "" else ToString x)
                  = Normal (if nullish x then "" else s)) by (by destruct (nullish x)).
      rewrite E. simpl.
      destruct IHl as [(ss & -> & ->) | [-> ->]]; simpl; eauto.
    + assert (nullish x = false) as -> by (by destruct x).
      rewrite Ht. simpl. eauto.
  - simpl. destruct (hasOwn "toString" ps); simpl; eauto.
Qed.

Lemma arrayJoin_cases sep l :
  (∃ s, arrayJoin sep l = Normal s ∧ convertible (VArr l) = true)
  ∨ (arrayJoin sep l = Throw TypeError ∧ convertible (VArr l) = false).
Proof.
  destruct (ToString_cases (VArr l)) as [(s & Hs & Hc) | [Ht Hc]].
  - left. rewrite ToString_arr in Hs. unfold arrayJoin in *.
    destruct (elemsToStrings l); simpl in *; [eauto | done].
  - right. rewrite ToString_arr in Ht. unfold arrayJoin in *.
    destruct (elemsToStrings l); simpl in *; [done | eauto].
Qed.

Ltac step_ToString :=
  match goal with
  | |- context [ToString ?v] =>
      let H := fresh "Hconv" in
      destruct (ToString_cases v) as [(? & -> & H) | [-> H]]
  | |- context [arrayJoin ?sep ?l] =>
      let H := fresh "Hconv" in
      destruct (arrayJoin_cases sep l) as [(? & -> & H) | [-> H]]
  end.

Ltac some_unconvertible :=
  repeat match goal with
         | H : convertible (VArr _) = false |- _ => simpl in H
         end;
  repeat match goal with
         | H : prop _ _ = _ |- _ => rewrite H
         | H : convertible _ = false |- _ => rewrite H
         | H : forallb convertible _ = false |- _ => rewrite H
         end;
  simpl; rewrite ?andb_false_r; reflexivity.

(** The title is built unless one of the arguments it may render is not
    convertible; the exception then is a [TypeError]. *)
Lemma buildToolTitle_cases kind args :
  (∃ title, buildToolTitle kind args = Normal title)
  ∨ (buildToolTitle kind args = Throw TypeError ∧ titleArgsConvertible args = false).
Proof.
  unfold buildToolTitle, titleArgsConvertible.
  repeat first [ step_ToString; simpl | case_match; simpl ];
    first [ left; eexists; reflexivity | right; split; [reflexivity | some_unconvertible] ].
Qed.

(** The content block is built unless the value it renders is not
    convertible; the exception then is a [TypeError]. *)
Lemma completedContent_cases key args result :
  (∃ content, completedContent key args result = Normal content)
  ∨ (completedContent key args result = Throw TypeError
     ∧ contentConvertible args result = false).
Proof.
  unfold completedContent, contentConvertible.
  destruct (keyIs key "readToolCall" && truthy _).
  { step_ToString; simpl; [eauto|]. right. split; [done|]. some_unconvertible. }
  destruct (keyIs key "writeToolCall"); [eauto|].
  destruct (keyIs key "bashToolCall" || keyIs key "shellToolCall").
  { step_ToString; simpl; [eauto|]. right. split; [done|]. some_unconvertible. }
  destruct (keyIs key "grepToolCall" || keyIs key "globToolCall"); [|eauto].
  destruct (summarizeSearchResult key args result); [|eauto].
  destruct (negb _); eauto.
Qed.

(** ** Tool calls *)


Lemma mapper_completed sid evt last :
  prop evt "type" = VStr "tool_call" →
  prop evt "subtype" = VStr "completed" →
  mapCursorEventToAcp sid evt last
  = (content ← completedContent (toolKindKeyOf evt) (argsOf evt) (resultOf evt);
     Normal [ {| sessionId := sid;
                 update := ToolCallUpdate (callIdOf evt)
                             (if truthy (prop (prop (toolOf evt) "result") "error")
                              then Failed else Completed)
                             (Some (resultOf evt))
                             (match toLocationsFromResult (resultOf evt) with
                              | Some l => Some l
                              | None => toLocationsFromArgs (argsOf evt)
                              end)
                             content |} ]).
Proof.
  intros Ht Hs. rewrite (mapper_tool_call _ _ _ Ht). unfold mapToolCall.
  by rewrite Hs.
Qed.







(** ** Shell completions *)

Lemma trim_empty_length s : Nat.eqb (String.length (trim s)) 0 = bool_decide (trim s = "").
Proof. by destruct (trim s). Qed.

(** A safe integer is printed by its decimal digits. *)
Lemma NumberToString_safe n : Z.abs n < 2 ^ 53 → NumberToString n = pretty n.
Proof.
  intros H. unfold NumberToString, magnitudeToString.
  destruct (Z.ltb_spec n 0) as [Hn|Hn].
  - rewrite (proj2 (Z.ltb_lt (- n) (2 ^ 53))) by lia.
    destruct n as [|q|q]; [lia..|reflexivity].
  - by rewrite (proj2 (Z.ltb_lt n (2 ^ 53))) by lia.
Qed.

Example NumberToString_samples :
  map NumberToString [ 0; 2; -1; 2 ^ 53; 2 ^ 60; 10 ^ 21; 2 ^ 70; - 10 ^ 23 ]
  = [ "0"; "2"; "-1"; "9007199254740992"; "1152921504606847000"; "1e+21";
      "1.1805916207174113e+21"; "-1e+23" ].
Proof. by vm_compute. Qed.

(** C8, as the code has it. On a completed bash or shell tool_call the mapper
    converts the output, [result.output ?? result.stdout ?? ""], to a string.
    When the conversion returns [outText], the event maps to exactly one
    tool_call_update with one text block: if [outText] is empty or white
    space only and the result has no numeric [exitCode], the text is
    "(no output)" between the fence lines; if the result has the numeric
    [exitCode] [n], the text between the fence lines starts with the line
    "Exit code: " followed by [n] as JavaScript prints it, the decimal digits
    of a safe integer, and goes on with "(no output)" or the output. When the
    conversion throws, the mapper throws a [TypeError], whatever the
    [exitCode]. *)
Theorem shell_completion_text sid evt last key :
  prop evt "type" = VStr "tool_call" →
  prop evt "subtype" = VStr "completed" →
  toolKindKeyOf evt = Some key →
  key = "bashToolCall" ∨ key = "shellToolCall" →
  match ToString (shellOutput (resultOf evt)) with
  | Normal outText =>
      ∃ status rawOutput locs text,
        mapCursorEventToAcp sid evt last
        = Normal [ {| sessionId := sid;
                      update := ToolCallUpdate (callIdOf evt) status rawOutput locs
                                  (Some [ ContentText (VStr text) ]) |} ]
        ∧ (trim outText = "" →
           isNumber (prop (resultOf evt) "exitCode") = false →
           text = "```" +:+ LF +:+ "(no output)" +:+ LF +:+ "```")
        ∧ (∀ n, prop (resultOf evt) "exitCode" = VNum n →
           text = "```" +:+ LF +:+ "Exit code: " +:+ NumberToString n +:+ LF
                  +:+ (if bool_decide (trim outText = "") then "(no output)" else outText)
                  +:+ LF +:+ "```"
           ∧ (Z.abs n < 2 ^ 53 → NumberToString n = pretty n))
  | Throw e =>
      mapCursorEventToAcp sid evt last = Throw TypeError
      ∧ e = TypeError
      ∧ convertible (shellOutput (resultOf evt)) = false
  end.
Proof.
  intros Ht Hs Hk Hkey.
  pose proof (mapper_completed sid evt last Ht Hs) as H.
  assert (Hc : completedContent (toolKindKeyOf evt) (argsOf evt) (resultOf evt)
               = (outText ← ToString (shellOutput (resultOf evt));
                  Normal (Some [ ContentText (VStr (shellText outText
                    (numberOrUndefined (prop (resultOf evt) "exitCode")))) ]))).
  { unfold completedContent. rewrite Hk. destruct Hkey as [-> | ->]; reflexivity. }
  rewrite Hc in H.
  destruct (ToString_cases (shellOutput (resultOf evt)))
    as [(outText & Hout & _) | [Hout Hconv]]; rewrite Hout in H |- *; [|done].
  eexists _, _, _, _. split; [exact H|].
  unfold shellText. rewrite trim_empty_length. split.
  - intros Htrim Hnum. rewrite bool_decide_eq_true_2 by done.
    destruct (prop (resultOf evt) "exitCode"); done.
  - intros n ->. split; [|apply NumberToString_safe].
    simpl numberOrUndefined. cbv iota. by rewrite !append_assoc.
Qed.

Lemma shell_completion_witness :
  let done result :=
    VObj [ ("type", VStr "tool_call"); ("subtype", VStr "completed");
           ("call_id", VStr "c1");
           ("tool_call", VObj [ ("shellToolCall",
              VObj [ ("args", VObj [ ("command", VStr "true") ]); ("result", result) ]) ]) ] in
  (∃ status rawOutput locs,
     mapCursorEventToAcp "s1"
       (done (VObj [ ("success", VObj [ ("stdout", VStr (" " +:+ LF)) ]) ])) ""
     = Normal [ {| sessionId := "s1";
                   update := ToolCallUpdate (VStr "c1") status rawOutput locs
                     (Some [ ContentText (VStr ("```" +:+ LF +:+ "(no output)" +:+ LF +:+ "```")) ]) |} ])
  ∧ (∃ status rawOutput locs,
       mapCursorEventToAcp "s1"
         (done (VObj [ ("success", VObj [ ("stdout", VStr "ok"); ("exitCode", VNum 2) ]) ])) ""
       = Normal [ {| sessionId := "s1";
                     update := ToolCallUpdate (VStr "c1") status rawOutput locs
                       (Some [ ContentText (VStr ("```" +:+ LF +:+ "Exit code: 2" +:+ LF
                                                  +:+ "ok" +:+ LF +:+ "```")) ]) |} ]).
Proof.
  intros done. split.
  - destruct (shell_completion_text "s1"
                (done (VObj [ ("success", VObj [ ("stdout", VStr (" " +:+ LF)) ]) ])) ""
                "shellToolCall" eq_refl eq_refl eq_refl (or_intror eq_refl))
      as (status & raw & locs & text & Hm & Hnone & _).
    exists status, raw, locs. rewrite Hm, (Hnone eq_refl eq_refl). reflexivity.
  - destruct (shell_completion_text "s1"
                (done (VObj [ ("success", VObj [ ("stdout", VStr "ok"); ("exitCode", VNum 2) ]) ])) ""
                "shellToolCall" eq_refl eq_refl eq_refl (or_intror eq_refl))
      as (status & raw & locs & text & Hm & _ & Hexit).
    exists status, raw, locs. rewrite Hm, (proj1 (Hexit 2 eq_refl)). reflexivity.
Defined.

(** C8 as stated fails on a shell completion whose output is an object with
    an own [toString] member: a numeric exit code is present, the mapper
    throws, and no text with an "Exit code:" line is emitted. *)
Lemma shell_completion_unconvertible_output_throws :
  let result := VObj [ ("stdout", VObj [ ("toString", VNum 1) ]); ("exitCode", VNum 2) ] in
  let evt := VObj [ ("type", VStr "tool_call"); ("subtype", VStr "completed");
                    ("call_id", VStr "c1");
                    ("tool_call", VObj [ ("shellToolCall",
                       VObj [ ("args", VObj [ ("command", VStr "true") ]);
                              ("result", VObj [ ("success", result) ]) ]) ]) ] in
  prop evt "type" = VStr "tool_call"
  ∧ prop evt "subtype" = VStr "completed"
  ∧ toolKindKeyOf evt = Some "shellToolCall"
  ∧ resultOf evt = result
  ∧ prop result "exitCode" = VNum 2
  ∧ mapCursorEventToAcp "s1" evt "" = Throw TypeError
  ∧ ∀ t st, onLine (Json evt) t st = (t, st).
Proof.
  intros result evt. do 5 (split; [done|]). split; [by vm_compute|].
  intros t st. apply onLine_skipped. right. exists evt. split; [done|]. by vm_compute.
Qed.

(** ** Exceptions *)

Lemma mapAssistant_throws sid evt last e :
  mapAssistant sid evt last = Throw e →
  e = TypeError
  ∧ truthy (assistantText evt) = true ∧ isString (assistantText evt) = false.
Proof.
  unfold mapAssistant.
  destruct (assistantText evt) as [| |b|n|t|l|ps]; simpl; try done.
  - destruct b; simpl; [|done]. by intros [= <-].
  - destruct (negb (n =? 0)); simpl; [|done]. by intros [= <-].
  - repeat case_match; done.
  - by intros [= <-].
  - by intros [= <-].
Qed.

Lemma mapToolCall_throws sid evt e :
  mapToolCall sid evt = Throw e →
  e = TypeError
  ∧ (prop evt "subtype" = VStr "started" ∧ titleArgsConvertible (argsOf evt) = false
     ∨ prop evt "subtype" = VStr "completed"
       ∧ contentConvertible (argsOf evt) (resultOf evt) = false).
Proof.
  unfold mapToolCall.
  destruct (isStr (prop evt "subtype") "started") eqn:Es.
  { apply isStr_true in Es.
    destruct (buildToolTitle_cases (keyOrOther (toolKindKeyOf evt)) (argsOf evt))
      as [[title ->] | [-> Hc]]; simpl; [done|]. intros [= <-]. auto. }
  destruct (isStr (prop evt "subtype") "completed") eqn:Ec; [|done].
  apply isStr_true in Ec.
  destruct (completedContent_cases (toolKindKeyOf evt) (argsOf evt) (resultOf evt))
    as [[content ->] | [-> Hc]]; simpl; [done|]. intros [= <-]. auto.
Qed.

(** C9, as the code has it. The mapper is not total. It throws, always a
    [TypeError], only on [null], on an assistant event whose text is truthy
    and no string, and on a started or completed tool_call one of whose
    rendered values is not convertible to a string; the title classifier
    throws only in the last case, and the search summary returns [undefined]
    where its body throws. The line handler swallows every exception, that of
    a line that is no JSON included: the line sends no notification and
    changes nothing, and the lines after it are handled as if it had not been
    there. An event that is neither an assistant nor a tool_call event maps
    to no notification. *)
Theorem mapper_throws_are_swallowed :
  (∀ sid evt last e, mapCursorEventToAcp sid evt last = Throw e →
     e = TypeError
     ∧ (nullish evt = true
        ∨ (prop evt "type" = VStr "assistant"
           ∧ truthy (assistantText evt) = true ∧ isString (assistantText evt) = false)
        ∨ (prop evt "type" = VStr "tool_call" ∧ prop evt "subtype" = VStr "started"
           ∧ titleArgsConvertible (argsOf evt) = false)
        ∨ (prop evt "type" = VStr "tool_call" ∧ prop evt "subtype" = VStr "completed"
           ∧ contentConvertible (argsOf evt) (resultOf evt) = false)))
  ∧ (∀ kind args e, buildToolTitle kind args = Throw e →
       e = TypeError ∧ titleArgsConvertible args = false)
  ∧ (∀ key args result e, summarizeSearchBody key args result = Throw e →
       summarizeSearchResult key args result = None)
  ∧ (∀ sid evt last, nullish evt = false →
       prop evt "type" ≠ VStr "assistant" → prop evt "type" ≠ VStr "tool_call" →
       mapCursorEventToAcp sid evt last = Normal [])
  ∧ (∀ line evs t st,
       (line = NotJson
        ∨ ∃ evt e, line = Json evt
                   ∧ mapCursorEventToAcp (turnSession t) evt (lastAssistantText t) = Throw e) →
       onLine line t st = (t, st)
       ∧ runEvents (StdoutLine line :: evs) (t, st) = runEvents evs (t, st)).
Proof.
  split; [|split; [|split; [|split]]].
  - intros sid evt last e. unfold mapCursorEventToAcp, get.
    destruct (nullish evt); simpl; [intros [= <-]; auto|].
    destruct (isStr (prop evt "type") "user"); [done|].
    destruct (isStr (prop evt "type") "assistant") eqn:Ea.
    { apply isStr_true in Ea. intros H. apply mapAssistant_throws in H as [-> H]. auto. }
    destruct (isStr (prop evt "type") "tool_call") eqn:Et; [|done].
    apply isStr_true in Et. intros H.
    apply mapToolCall_throws in H as [-> [[? ?] | [? ?]]]; auto 10.
  - intros kind args e H.
    destruct (buildToolTitle_cases kind args) as [[title Ht] | [Ht Hc]]; [congruence|].
    split; [congruence | done].
  - intros key args result e H. unfold summarizeSearchResult. by rewrite H.
  - apply mapper_other.
  - intros line evs t st Hbad.
    assert (Hskip : onLine line t st = (t, st)).
    { apply onLine_skipped. destruct Hbad as [-> | (evt & e & -> & H)]; [auto|].
      right. exists evt. split; [done|]. eapply mapperReturns_false. eauto. }
    split; [done|].
    change (runEvents (StdoutLine line :: evs) (t, st))
      with (runEvents evs (onLine line t st)).
    by rewrite Hskip.
Qed.

Lemma mapper_throws_are_swallowed_witness :
  let bad := VObj [ ("type", VStr "assistant");
                    ("message", VObj [ ("content", VArr [ VObj [ ("text", VNum 5) ] ]) ]) ] in
  let good := VObj [ ("type", VStr "assistant");
                     ("message", VObj [ ("content", VArr [ VObj [ ("text", VStr "Hi") ] ]) ]) ] in
  let t := mkTurn "s1" None "" in
  let st := newSession "s1" None (mkAgent ∅ []) in
  onLine (Json bad) t st = (t, st)
  ∧ onLine NotJson t st = (t, st)
  ∧ outbox (runEvents [ StdoutLine (Json bad); StdoutLine (Json good) ] (t, st)).2
    = [ chunk "s1" "Hi" ]
  ∧ mapCursorEventToAcp "s1" (VObj [ ("type", VStr "thinking") ]) "" = Normal [].
Proof.
  intros bad good t st.
  destruct mapper_throws_are_swallowed as (_ & _ & _ & Hother & Hskip).
  assert (Hbad : Json bad = NotJson
                 ∨ ∃ evt e, Json bad = Json evt
                            ∧ mapCursorEventToAcp (turnSession t) evt (lastAssistantText t)
                              = Throw e).
  { right. exists bad, TypeError. split; reflexivity. }
  split; [exact (proj1 (Hskip (Json bad) [] t st Hbad))|].
  split; [exact (proj1 (Hskip NotJson [] t st (or_introl eq_refl)))|].
  split.
  - rewrite (proj2 (Hskip (Json bad) [ StdoutLine (Json good) ] t st Hbad)). reflexivity.
  - apply Hother; simpl; done.
Defined.

(** C9 as stated fails on an assistant event whose text is a number: the
    mapper throws. *)
Lemma mapper_throws_on_numeric_assistant_text :
  mapCursorEventToAcp "s1"
    (VObj [ ("type", VStr "assistant");
            ("message", VObj [ ("content", VArr [ VObj [ ("text", VNum 5) ] ]) ]) ])
    ""
  = Throw TypeError.
Proof. reflexivity. Qed.

(** * Further properties of the code *)

(** ** The shape of the mapper's output *)

Lemma mapAssistant_shape sid evt last notes :
  mapAssistant sid evt last = Normal notes →
  notes = [] ∨ ∃ delta, delta ≠ "" ∧ notes = [ chunk sid delta ].
Proof.
  unfold mapAssistant. destruct (truthy _ && strictNe _ _); [|intros [= <-]; auto].
  destruct (assistantText evt) as [| |b|n|t|l|ps]; try done.
  destruct (String.eqb_spec (if startsWith t last
                             then sliceFrom (String.length last) t else t) "")
    as [E|E]; simpl; intros [= <-]; [auto|]. right. eauto.
Qed.

Lemma mapToolCall_shape sid evt notes :
  mapToolCall sid evt = Normal notes →
  (List.length notes ≤ 2)%nat
  ∧ Forall (λ n, sessionId n = sid ∧ isTextChunk n = false) notes.
Proof.
  unfold mapToolCall.
  destruct (isStr (prop evt "subtype") "started").
  { destruct (buildToolTitle _ _); simpl; [|done]. intros [= <-].
    split; [simpl; lia|]. repeat constructor. }
  destruct (isStr (prop evt "subtype") "completed").
  { destruct (completedContent _ _ _); simpl; [|done]. intros [= <-].
    split; [simpl; lia|]. repeat constructor. }
  intros [= <-]. split; [simpl; lia | constructor].
Qed.

(** X1. Whenever the mapper returns, it returns at most two notifications,
    each for the session id it was given, and never an empty text chunk. An
    assistant event yields at most one notification, a text chunk; any other
    event yields no text chunk. *)
Theorem mapper_output_shape sid evt last notes :
  mapCursorEventToAcp sid evt last = Normal notes →
  (List.length notes ≤ 2)%nat
  ∧ Forall (λ n, sessionId n = sid ∧ update n ≠ AgentMessageChunk "") notes
  ∧ (prop evt "type" = VStr "assistant" →
       (List.length notes ≤ 1)%nat ∧ Forall (λ n, isTextChunk n = true) notes)
  ∧ (prop evt "type" ≠ VStr "assistant" → Forall (λ n, isTextChunk n = false) notes).
Proof.
  unfold mapCursorEventToAcp, get. destruct (nullish evt); simpl; [done|].
  destruct (isStr (prop evt "type") "user") eqn:Eu.
  { apply isStr_true in Eu. intros [= <-]. repeat split; simpl; auto; lia. }
  destruct (isStr (prop evt "type") "assistant") eqn:Ea.
  { apply isStr_true in Ea. intros H.
    apply mapAssistant_shape in H as [-> | (d & Hd & ->)].
    - repeat split; simpl; auto; lia.
    - split; [simpl; lia|]. split.
      + constructor; [|done]. split; [done|]. simpl. congruence.
      + split; [intros _; split; [simpl; lia | by repeat constructor]|].
        intros Hne. by rewrite Ea in Hne. }
  destruct (isStr (prop evt "type") "tool_call") eqn:Et.
  { apply isStr_true in Et. intros H. apply mapToolCall_shape in H as [Hlen Hall].
    split; [done|]. split.
    - eapply Forall_impl; [exact Hall|]. intros n [Hs Hc]. split; [done|].
      intros E. unfold isTextChunk in Hc. by rewrite E in Hc.
    - split; [intros E; rewrite Et in E; done|]. intros _.
      eapply Forall_impl; [exact Hall|]. by intros n [_ Hc]. }
  intros [= <-]. repeat split; simpl; auto; lia.
Qed.

Lemma mapper_output_shape_witness :
  let evt := VObj [ ("type", VStr "tool_call"); ("subtype", VStr "started");
                    ("tool_call", VObj [ ("readToolCall", VObj [ ("args", VObj [ ("path", VStr "a") ]) ]) ]) ] in
  ∃ notes, mapCursorEventToAcp "s1" evt "" = Normal notes
           ∧ List.length notes = 2%nat
           ∧ Forall (λ n, sessionId n = "s1" ∧ update n ≠ AgentMessageChunk "") notes.
Proof.
  intros evt. eexists. split; [reflexivity|]. split; [reflexivity|].
  exact (proj1 (proj2 (mapper_output_shape "s1" evt "" _ eq_refl))).
Defined.

(** X2. An assistant event with a string text sends nothing when the text is
    empty or equal to the last text seen, and otherwise exactly one chunk: the
    part after the last text when the text extends it, the whole text when it
    does not (a reset). The delta of a changed text is never empty, so the
    guard on the delta never drops it. *)
Theorem assistant_delta_cases sid evt last text :
  prop evt "type" = VStr "assistant" →
  assistantText evt = VStr text →
  mapCursorEventToAcp sid evt last
  = Normal (if bool_decide (text = "" ∨ text = last) then []
            else [ chunk sid (if startsWith text last
                              then sliceFrom (String.length last) text
                              else text) ])
  ∧ (text ≠ "" → startsWith text last = false →
     mapCursorEventToAcp sid evt last = Normal [ chunk sid text ]).
Proof.
  intros Ht Htext. rewrite (mapper_assistant _ _ _ Ht). unfold mapAssistant.
  rewrite Htext. simpl.
  destruct (String.eqb_spec text "") as [->|Hne]; simpl.
  { split; [done | by intros []]. }
  destruct (String.eqb_spec text last) as [->|Hne2]; simpl.
  { rewrite bool_decide_eq_true_2 by auto. split; [done|].
    intros _ Hs. exfalso. clear -Hs. induction last as [|a l IH]; [done|].
    simpl in Hs. by rewrite Ascii.eqb_refl in Hs. }
  rewrite bool_decide_eq_false_2 by (intros [?|?]; done).
  destruct (startsWith text last) eqn:Hs.
  - pose proof (startsWith_nonempty_delta _ _ Hs Hne2) as Hd.
    apply String.eqb_neq in Hd. rewrite Hd. done.
  - apply String.eqb_neq in Hne. rewrite Hne. done.
Qed.

Lemma assistant_delta_cases_witness :
  let ev text := VObj [ ("type", VStr "assistant");
                        ("message", VObj [ ("content", VArr [ VObj [ ("text", VStr text) ] ]) ]) ] in
  mapCursorEventToAcp "s1" (ev "Hello world") "Hello" = Normal [ chunk "s1" " world" ]
  ∧ mapCursorEventToAcp "s1" (ev "Bye") "Hello" = Normal [ chunk "s1" "Bye" ]
  ∧ mapCursorEventToAcp "s1" (ev "Hello") "Hello" = Normal [].
Proof.
  intros ev.
  split; [exact (proj1 (assistant_delta_cases "s1" (ev "Hello world") "Hello" _ eq_refl eq_refl))|].
  split; [|exact (proj1 (assistant_delta_cases "s1" (ev "Hello") "Hello" _ eq_refl eq_refl))].
  apply (proj2 (assistant_delta_cases "s1" (ev "Bye") "Hello" _ eq_refl eq_refl)); done.
Defined.

(** ** Tool kinds the classifiers do not know *)





(** ** Locations *)

Lemma nonEmpty_spec {A} (l : list A) :
  nonEmpty l ≠ Some [] ∧ (nonEmpty l = None ↔ l = []) ∧ ∀ l', nonEmpty l = Some l' → l' = l.
Proof. destruct l; simpl; repeat split; try done; by intros ? [= <-]. Qed.

Lemma locs_entry_length p :
  (List.length (locsOfStringOrObject p) ≤ 1)%nat
  ∧ (List.length (locsOfObjectOrString p) ≤ 1)%nat.
Proof.
  unfold locsOfStringOrObject, locsOfObjectOrString.
  split; repeat case_match; simpl; lia.
Qed.

Lemma flat_map_length_le {A B} (f : A → list B) l :
  (∀ x, (List.length (f x) ≤ 1)%nat) → (List.length (flat_map f l) ≤ List.length l)%nat.
Proof.
  intros Hf. induction l as [|x l IH]; simpl; [lia|].
  rewrite length_app. specialize (Hf x). lia.
Qed.

(** X4. The locations of an argument bag are never an empty list: they are
    absent exactly when the bag has neither a string [path] nor an entry of
    [paths] that names one. When [path] is a string it comes first, with
    [line] when that is a number; each entry of [paths] adds at most one
    location. *)
Theorem locations_from_args_shape args :
  toLocationsFromArgs args ≠ Some []
  ∧ (∀ p, prop args "path" = VStr p →
       ∃ rest, toLocationsFromArgs args
               = Some ({| path := p; line := numberOrUndefined (prop args "line") |} :: rest))
  ∧ (isString (prop args "path") = false → isArray (prop args "paths") = false →
       toLocationsFromArgs args = None)
  ∧ (∀ locs, toLocationsFromArgs args = Some locs →
       (List.length locs
        ≤ 1 + match prop args "paths" with VArr ps => List.length ps | _ => 0 end)%nat).
Proof.
  unfold toLocationsFromArgs. split; [apply nonEmpty_spec|]. split; [|split].
  - intros p ->. simpl. eauto.
  - intros Hp Ha. destruct (prop args "path"); try done;
      destruct (prop args "paths"); done.
  - intros locs H. apply nonEmpty_spec in H as ->. rewrite length_app.
    assert ((List.length (match prop args "path" with
                          | VStr p => [ locationOf p args ] | _ => [] end) ≤ 1)%nat)
      by (case_match; simpl; lia).
    destruct (prop args "paths") as [| | | | |ps|]; simpl; try lia.
    pose proof (flat_map_length_le locsOfStringOrObject ps
                  (λ x, proj1 (locs_entry_length x))). lia.
Qed.

Lemma locations_from_args_witness :
  ∃ rest, toLocationsFromArgs
            (VObj [ ("path", VStr "a.ts"); ("line", VNum 4);
                    ("paths", VArr [ VStr "b.ts"; VNull ]) ])
          = Some ({| path := "a.ts"; line := Some 4 |} :: rest).
Proof.
  exact (proj1 (proj2 (locations_from_args_shape
           (VObj [ ("path", VStr "a.ts"); ("line", VNum 4);
                   ("paths", VArr [ VStr "b.ts"; VNull ]) ]))) "a.ts" eq_refl).
Defined.

(** X5. The locations of a result are absent for every falsy result and
    never an empty list; they list the entries of [matches] first, then those
    of [files], then the result's own [path], each entry giving at most one
    location. *)
Theorem locations_from_result_shape result :
  toLocationsFromResult result ≠ Some []
  ∧ (truthy result = false → toLocationsFromResult result = None)
  ∧ (∀ locs, toLocationsFromResult result = Some locs →
       (List.length locs
        ≤ match prop result "matches" with VArr ms => List.length ms | _ => 0 end
          + match prop result "files" with VArr fs => List.length fs | _ => 0 end
          + 1)%nat)
  ∧ (∀ ms fs p, prop result "matches" = VArr ms → prop result "files" = VArr fs →
       prop result "path" = VStr p →
       toLocationsFromResult result
       = Some (flat_map locsOfObjectOrString ms ++ flat_map locsOfStringOrObject fs
               ++ [ {| path := p; line := numberOrUndefined (prop result "line") |} ])%list).
Proof.
  unfold toLocationsFromResult. split; [|split; [|split]].
  - destruct (negb (truthy result)); [done | apply nonEmpty_spec].
  - by intros ->.
  - intros locs. destruct (negb (truthy result)); [done|].
    intros H. apply nonEmpty_spec in H as ->. rewrite !length_app.
    assert ((List.length (match prop result "path" with
                          | VStr p => [ locationOf p result ] | _ => [] end) ≤ 1)%nat)
      by (case_match; simpl; lia).
    assert ((List.length (match prop result "matches" with
                          | VArr ms => flat_map locsOfObjectOrString ms | _ => [] end)
             ≤ match prop result "matches" with VArr ms => List.length ms | _ => 0 end)%nat).
    { destruct (prop result "matches"); simpl; try lia.
      apply flat_map_length_le. intros x. apply locs_entry_length. }
    assert ((List.length (match prop result "files" with
                          | VArr fs => flat_map locsOfStringOrObject fs | _ => [] end)
             ≤ match prop result "files" with VArr fs => List.length fs | _ => 0 end)%nat).
    { destruct (prop result "files"); simpl; try lia.
      apply flat_map_length_le. intros x. apply locs_entry_length. }
    lia.
  - intros ms fs p Hm Hf Hp.
    assert (truthy result = true) as ->.
    { destruct result; try done; simpl in Hp; try done.
      all: repeat case_match; done. }
    simpl. rewrite Hm, Hf, Hp. unfold nonEmpty, locationOf.
    destruct (flat_map locsOfObjectOrString ms); simpl; [|done].
    destruct (flat_map locsOfStringOrObject fs); done.
Qed.

Lemma locations_from_result_witness :
  toLocationsFromResult
    (VObj [ ("matches", VArr [ VStr "m.ts" ]); ("files", VArr [ VStr "f.ts" ]);
            ("path", VStr "p.ts") ])
  = Some [ {| path := "m.ts"; line := None |}; {| path := "f.ts"; line := None |};
           {| path := "p.ts"; line := None |} ].
Proof.
  exact (proj2 (proj2 (proj2 (locations_from_result_shape
           (VObj [ ("matches", VArr [ VStr "m.ts" ]); ("files", VArr [ VStr "f.ts" ]);
                   ("path", VStr "p.ts") ]))))
           [ VStr "m.ts" ] [ VStr "f.ts" ] "p.ts" eq_refl eq_refl eq_refl).
Defined.

(** ** The search summary *)

Lemma startsWith_append p s : startsWith (p +:+ s) p = true.
Proof.
  induction p as [|a p IH]; [by destruct s|]. rewrite append_cons. simpl.
  by rewrite Ascii.eqb_refl.
Qed.

(** X6. The search summary is absent exactly for a kind that is neither grep
    nor glob and for a truthy pattern that cannot be converted to a string; a
    summary that is present starts with "Found ", so it is never empty. For
    grep a numeric [count] of the result wins over the number of matches; for
    glob the count is the number of files. The count is printed as JavaScript
    prints the number, by its decimal digits when it is a safe integer. *)
Theorem search_summary_cases key args result :
  (summarizeSearchResult key args result = None
   ↔ (keyIs key "grepToolCall" = false ∧ keyIs key "globToolCall" = false)
     ∨ (truthy (prop args "pattern") = true ∧ convertible (prop args "pattern") = false))
  ∧ (∀ s, summarizeSearchResult key args result = Some s → startsWith s "Found " = true)
  ∧ (∀ n p, keyIs key "grepToolCall" = true → prop result "count" = VNum n →
       prop args "pattern" = VStr p → p ≠ "" →
       summarizeSearchResult key args result
       = Some ("Found " +:+ NumberToString n +:+ " match(es) for " +:+ p)
       ∧ (Z.abs n < 2 ^ 53 → NumberToString n = pretty n))
  ∧ (∀ fs, keyIs key "grepToolCall" = false → keyIs key "globToolCall" = true →
       prop result "files" = VArr fs → truthy (prop args "pattern") = false →
       summarizeSearchResult key args result
       = Some ("Found " +:+ NumberToString (Z.of_nat (List.length fs))
               +:+ " file(s) matching pattern")
       ∧ (Z.of_nat (List.length fs) < 2 ^ 53 →
          NumberToString (Z.of_nat (List.length fs)) = pretty (List.length fs))).
Proof.
  unfold summarizeSearchResult, summarizeSearchBody.
  assert (Hpat : (∃ pat, (if truthy (prop args "pattern")
                         then ToString (prop args "pattern") else Normal "pattern")
                         = Normal pat)
                 ∨ ((if truthy (prop args "pattern")
                     then ToString (prop args "pattern") else Normal "pattern")
                    = Throw TypeError
                    ∧ truthy (prop args "pattern") = true
                    ∧ convertible (prop args "pattern") = false)).
  { destruct (truthy (prop args "pattern")); [|eauto].
    destruct (ToString_cases (prop args "pattern")) as [(pat & -> & _) | [-> Hc]]; eauto. }
  split; [|split; [|split]].
  - assert (Hsome : ∀ pat, (if truthy (prop args "pattern")
                            then ToString (prop args "pattern") else Normal "pattern")
                           = Normal pat →
                    ¬ (truthy (prop args "pattern") = true
                       ∧ convertible (prop args "pattern") = false)).
    { intros pat Hp [Ht Hc]. rewrite Ht in Hp.
      destruct (ToString_cases (prop args "pattern")) as [(? & ? & ?) | [? ?]];
        congruence. }
    destruct (keyIs key "grepToolCall"); [|destruct (keyIs key "globToolCall")].
    3: { split; auto. }
    all: destruct Hpat as [[pat Hp] | (Hp & Ht & Hc)]; rewrite Hp; simpl.
    all: split; auto; try done.
    all: intros [[? ?] | H]; [done | by apply Hsome in Hp].
  - intros s.
    destruct (keyIs key "grepToolCall"); [|destruct (keyIs key "globToolCall"); [|done]];
      destruct Hpat as [[pat ->] | (-> & _)]; simpl; try done;
      intros [= <-]; apply startsWith_append.
  - intros n p -> -> Hp Hne. split; [|apply NumberToString_safe].
    rewrite Hp. simpl. apply String.eqb_neq in Hne. by rewrite Hne.
  - intros fs -> -> -> ->. split; [done|]. intros Hlen.
    rewrite NumberToString_safe by lia. by destruct (List.length fs).
Qed.

Lemma search_summary_witness :
  summarizeSearchResult (Some "grepToolCall") (VObj [ ("pattern", VStr "TODO") ])
    (VObj [ ("count", VNum 7); ("matches", VArr [ VStr "a" ]) ])
  = Some "Found 7 match(es) for TODO"
  ∧ summarizeSearchResult (Some "grepToolCall") (VObj [ ("pattern", VStr "TODO") ])
      (VObj [ ("count", VNum (10 ^ 21)) ])
    = Some "Found 1e+21 match(es) for TODO".
Proof.
  pose proof (λ result, proj1 (proj2 (proj2 (search_summary_cases (Some "grepToolCall")
                (VObj [ ("pattern", VStr "TODO") ]) result)))) as H.
  split.
  - exact (proj1 (H (VObj [ ("count", VNum 7); ("matches", VArr [ VStr "a" ]) ])
                    7 "TODO" eq_refl eq_refl eq_refl ltac:(done))).
  - exact (proj1 (H (VObj [ ("count", VNum (10 ^ 21)) ])
                    (10 ^ 21) "TODO" eq_refl eq_refl eq_refl ltac:(done))).
Defined.

(** ** The content of a read completion *)

Lemma sliceTo_length s : ∀ n,
  N.of_nat (String.length (sliceTo n s)) = N.min n (N.of_nat (String.length s)).
Proof.
  induction s as [|c s IH]; intros n; simpl; [lia|].
  destruct (N.eqb_spec n 0) as [->|Hn]; simpl; [lia|].
  specialize (IH (n - 1)%N). lia.
Qed.

Lemma sliceTo_prefix s : ∀ n, startsWith s (sliceTo n s) = true.
Proof.
  induction s as [|c s IH]; intros n; simpl; [done|].
  destruct (n =? 0)%N; simpl; [done|]. by rewrite Ascii.eqb_refl.
Qed.

Lemma sliceTo_all s : ∀ n, (N.of_nat (String.length s) ≤ n)%N → sliceTo n s = s.
Proof.
  induction s as [|c s IH]; intros n Hn; simpl in *; [done|].
  destruct (N.eqb_spec n 0) as [->|Hne]; [lia|]. rewrite IH; [done | lia].
Qed.

(** X7. The content block of a read completion is taken from the result's
    [content], else from the argument's. When that is a non-empty string the
    block holds its first 20000 characters: a prefix of it, of length the
    smaller of 20000 and its length, and the string itself when it is no
    longer than that. When it is missing or falsy there is no content block. *)
Theorem read_content_bounded args result :
  (truthy (prop result "content" ?? prop args "content") = false →
     completedContent (Some "readToolCall") args result = Normal None)
  ∧ (∀ c, prop result "content" ?? prop args "content" = VStr c → c ≠ "" →
       ∃ text,
         completedContent (Some "readToolCall") args result
         = Normal (Some [ ContentText (VStr text) ])
         ∧ startsWith c text = true
         ∧ N.of_nat (String.length text) = N.min 20000 (N.of_nat (String.length c))
         ∧ ((N.of_nat (String.length c) ≤ 20000)%N → text = c)).
Proof.
  unfold completedContent. split.
  - intros ->. done.
  - intros c Hc Hne. rewrite Hc. simpl.
    apply String.eqb_neq in Hne. rewrite Hne. simpl.
    exists (sliceTo 20000 c). split; [done|].
    split; [apply sliceTo_prefix|]. split; [apply sliceTo_length | apply sliceTo_all].
Qed.

Lemma read_content_witness :
  ∃ text,
    completedContent (Some "readToolCall") (VObj [ ("content", VStr "fallback") ])
      (VObj [ ("content", VStr "file body") ])
    = Normal (Some [ ContentText (VStr text) ])
    ∧ text = "file body".
Proof.
  destruct (proj2 (read_content_bounded (VObj [ ("content", VStr "fallback") ])
                     (VObj [ ("content", VStr "file body") ]))
              "file body" eq_refl ltac:(done)) as (text & Hc & _ & _ & Hall).
  exists text. split; [exact Hc|]. apply Hall. by vm_compute.
Defined.

(** ** Building the prompt *)

Lemma concat_cons_nonempty sep x y l :
  String.concat sep (x :: y :: l) = x +:+ sep +:+ String.concat sep (y :: l).
Proof. reflexivity. Qed.

Lemma concat_app sep l1 l2 :
  l1 ≠ [] → l2 ≠ [] →
  String.concat sep (l1 ++ l2) = String.concat sep l1 +:+ sep +:+ String.concat sep l2.
Proof.
  intros H1 H2. induction l1 as [|x l1 IH]; [done|].
  destruct l1 as [|y l1].
  - destruct l2 as [|z l2]; [done|]. reflexivity.
  - change ((x :: y :: l1) ++ l2)%list with (x :: y :: (l1 ++ l2))%list.
    rewrite !concat_cons_nonempty.
    change (y :: (l1 ++ l2))%list with ((y :: l1) ++ l2)%list.
    rewrite IH by done. by rewrite !append_assoc.
Qed.

Lemma flat_map_textual_nil (f : PromptChunk → list string) chunks :
  (∀ c, f c = [] ↔ isTextual c = false) →
  flat_map f chunks = [] ↔ existsb isTextual chunks = false.
Proof.
  intros Hf. induction chunks as [|c chunks IH]; simpl; [done|].
  rewrite orb_false_iff, <- IH, <- Hf. split.
  - intros H. by apply app_eq_nil in H.
  - by intros [-> ->].
Qed.

Lemma concatPromptChunks_no_text chunks :
  existsb isTextual chunks = false → concatPromptChunks chunks = "".
Proof.
  intros H. unfold concatPromptChunks.
  eapply flat_map_textual_nil in H as ->; [done|]. by intros [].
Qed.

(** X8. The prompt text is the texts, inlined resource texts and link
    locators of the chunks in their order, separated by one blank line;
    chunks without text (a resource without a [text], an image, audio) leave
    it as it is. Appending chunk lists appends their prompt texts with the
    separator between them when both carry text, and any list without text
    contributes nothing. *)
Theorem concatPromptChunks_compose a b :
  concatPromptChunks (filter (λ c, isTextual c = true) a) = concatPromptChunks a
  ∧ (existsb isTextual a = false → concatPromptChunks a = ""
       ∧ concatPromptChunks (a ++ b) = concatPromptChunks b
       ∧ concatPromptChunks (b ++ a) = concatPromptChunks b)
  ∧ (existsb isTextual a = true → existsb isTextual b = true →
       concatPromptChunks (a ++ b)
       = concatPromptChunks a +:+ (LF +:+ LF) +:+ concatPromptChunks b).
Proof.
  unfold concatPromptChunks.
  set (parts := λ chunk : PromptChunk, match chunk with
                                       | ChunkText t => [t]
                                       | ChunkResourceText t => [t]
                                       | ChunkResourceLink u => [u]
                                       | _ => []
                                       end).
  assert (Hparts : ∀ c, parts c = [] ↔ isTextual c = false) by (by intros []).
  split; [|split].
  - f_equal. induction a as [|c a IH]; [done|].
    rewrite filter_cons. destruct (decide (isTextual c = true)) as [E|E]; simpl.
    + by rewrite IH.
    + rewrite IH. apply not_true_is_false in E. apply Hparts in E. by rewrite E.
  - intros Ha. apply (flat_map_textual_nil parts _ Hparts) in Ha.
    rewrite !flat_map_app, Ha, app_nil_r. done.
  - intros Ha Hb. rewrite flat_map_app. apply concat_app.
    + intros E. apply (flat_map_textual_nil parts _ Hparts) in E. congruence.
    + intros E. apply (flat_map_textual_nil parts _ Hparts) in E. congruence.
Qed.

Lemma concatPromptChunks_witness :
  concatPromptChunks ([ ChunkText "Fix it"; ChunkOther ]
                      ++ [ ChunkResourceBlob; ChunkResourceLink "file:///a.ts" ])
  = "Fix it" +:+ (LF +:+ LF) +:+ "file:///a.ts".
Proof.
  exact (proj2 (proj2 (concatPromptChunks_compose [ ChunkText "Fix it"; ChunkOther ]
                         [ ChunkResourceBlob; ChunkResourceLink "file:///a.ts" ]))
           eq_refl eq_refl).
Defined.

(** X9. Starting a prompt on a registered session clears its cancellation
    flag, registers the spawned process, sends nothing and touches no other
    session. The process gets the four fixed flags, then ["--resume"] and the
    handle when the session has one, then the prompt text as the last
    argument unless that text is empty. In plan mode the text starts with the
    plan directive, so it is never empty and always passed; in default mode
    chunks without text pass no prompt argument. *)
Theorem promptStart_effect st sid s chunks :
  sessions st !! sid = Some s →
  let text := planPrefix (modeId s) +:+ concatPromptChunks chunks in
  let resume := if truthy (resumeId s) then [ VStr "--resume"; resumeId s ] else [] in
  ∃ st1 args,
    promptStart sid chunks st = Returns (mkTurn sid None "") st1
    ∧ sessions st1 !! sid
      = Some (mkSession (cwd s) false (resumeId s) (modeId s) (Some (Spawned args)))
    ∧ (∀ sid', sid ≠ sid' → sessions st1 !! sid' = sessions st !! sid')
    ∧ outbox st1 = outbox st
    ∧ (text ≠ "" → args = (baseArgs ++ resume ++ [ VStr text ])%list)
    ∧ (text = "" → args = (baseArgs ++ resume)%list)
    ∧ (modeId s = ModePlan → text ≠ "" ∧ startsWith text "[PLAN MODE]" = true)
    ∧ (modeId s = ModeDefault → existsb isTextual chunks = false → text = "").
Proof.
  intros Hs text resume. unfold promptStart. rewrite (sessionsGet_own _ _ _ Hs).
  eexists _, _. split; [reflexivity|]. simpl.
  rewrite lookup_alter_eq, Hs. simpl. split; [reflexivity|].
  split; [intros sid' Hne; by rewrite lookup_alter_ne|]. split; [done|].
  fold text. unfold spawnArgs. fold resume.
  split; [|split; [|split]].
  - intros Hne. apply String.eqb_neq in Hne. by rewrite Hne.
  - intros ->. simpl. by rewrite app_nil_r.
  - intros Hm. subst text. rewrite Hm. split; [done | reflexivity].
  - intros Hm Hc. subst text. rewrite Hm.
    by rewrite (concatPromptChunks_no_text _ Hc).
Qed.

Lemma promptStart_effect_witness :
  let st := mkAgent {[ "s1" := mkSession None true (VStr "r7") ModePlan None ]} [] in
  ∃ st1, promptStart "s1" [ ChunkOther ] st = Returns (mkTurn "s1" None "") st1
         ∧ sessions st1 !! "s1"
           = Some (mkSession None false (VStr "r7") ModePlan
                     (Some (Spawned (baseArgs ++ [ VStr "--resume"; VStr "r7" ]
                                     ++ [ VStr (planPrefix ModePlan) ])%list))).
Proof.
  intros st.
  destruct (promptStart_effect st "s1" _ [ ChunkOther ] (lookup_singleton_eq _ _))
    as (st1 & args & Hp & Hl & _ & _ & Hargs & _).
  exists st1. split; [exact Hp|]. rewrite Hl, (Hargs ltac:(done)). reflexivity.
Defined.

(** ** Whole prompt calls *)

Lemma agent_eq (a b : Agent) :
  (∀ k, sessions a !! k = sessions b !! k) → outbox a = outbox b → a = b.
Proof.
  destruct a as [ma oa], b as [mb ob]. simpl. intros Hm ->. f_equal.
  by apply map_eq.
Qed.

(** One turn event appends its notifications and leaves the turn variables
    that [stepTurn] computes, whatever the agent's state is. *)
Lemma turnStep_outbox t st ev :
  ∃ st', turnStep (t, st) ev = (stepTurn t ev, st')
         ∧ outbox st' = (outbox st ++ stepNotes t ev)%list.
Proof.
  unfold stepTurn. destruct ev as [[|evt]|err| | |]; simpl.
  - exists st. by rewrite app_nil_r.
  - unfold onLine, onLineBody. simpl.
    destruct (mapCursorEventToAcp (turnSession t) evt (lastAssistantText t)) as [notes|e];
      simpl.
    + eexists. split; [reflexivity|]. by case_match.
    + exists st. by rewrite app_nil_r.
  - unfold onStderr. eexists. split; [reflexivity|].
    case_match; simpl; [done | by rewrite app_nil_r].
  - exists (match cancel (turnSession t) st with Returns _ st' => st' | _ => st end).
    split.
    + unfold cancel. by repeat case_match.
    + unfold cancel. rewrite app_nil_r. by destruct (sessionsGet _ _).
  - eexists. split; [reflexivity|]. simpl. by rewrite app_nil_r.
  - eexists. split; [reflexivity|]. simpl. by rewrite app_nil_r.
Qed.

Lemma runEvents_outbox evs : ∀ t st,
  ∃ t' st', runEvents evs (t, st) = (t', st')
            ∧ outbox st' = (outbox st ++ turnNotes t evs)%list.
Proof.
  induction evs as [|ev evs IH]; intros t st.
  - exists t, st. simpl. by rewrite app_nil_r.
  - destruct (turnStep_outbox t st ev) as (st1 & Hstep & Hout1).
    destruct (IH (stepTurn t ev) st1) as (t' & st' & Hrun & Hout).
    exists t', st'.
    change (runEvents (ev :: evs) (t, st)) with (runEvents evs (turnStep (t, st) ev)).
    rewrite Hstep, Hrun. split; [done|]. simpl. by rewrite Hout, Hout1, app_assoc.
Qed.

(** A whole prompt call on a registered session *)
Lemma prompt_spec st sid s chunks evs exitCode :
  sessions st !! sid = Some s →
  ∃ st', prompt sid chunks evs exitCode st = Returns (turnReason evs exitCode) st'
    ∧ sessions st' !! sid
      = Some (mkSession (cwd s) (existsb isCancelRequest evs)
                (if truthy (resumeId s) then resumeId s
                 else if truthy (firstOfferedId evs) then firstOfferedId evs
                 else resumeId s)
                (modeId s) None)
    ∧ (∀ sid', sid ≠ sid' → sessions st' !! sid' = sessions st !! sid')
    ∧ outbox st' = (outbox st ++ turnNotes (mkTurn sid None "") evs)%list.
Proof.
  intros Hs. unfold prompt, promptStart. rewrite (sessionsGet_own _ _ _ Hs).
  set (child := Spawned _). set (st1 := updSession sid _ st).
  assert (H1 : sessions st1 !! turnSession (mkTurn sid None "")
               = Some (setRunning (Some child) (setCancelled false s))).
  { subst st1. simpl. by rewrite lookup_alter_eq, Hs. }
  destruct (runEvents_spec evs _ _ _ H1)
    as (t' & st2 & r & Hrun & Hsid & Hstop & Hl & Ho).
  destruct (runEvents_outbox evs (mkTurn sid None "") st1) as (t2 & st2' & Hrun2 & Hout).
  rewrite Hrun in Hrun2. injection Hrun2 as <- <-.
  rewrite Hrun. unfold finalize. simpl in Hsid, Hstop, Hl, Ho.
  rewrite Hsid, Hl, Hstop. simpl.
  eexists. split; [|split; [|split]].
  - unfold turnReason. by destruct (capturedStop evs).
  - simpl. by rewrite lookup_alter_eq, Hl.
  - intros sid' Hne. simpl. rewrite lookup_alter_ne by done. rewrite Ho by done.
    subst st1. simpl. by rewrite lookup_alter_ne.
  - simpl. by rewrite Hout.
Qed.

(** X10. When a prompt call on a registered session has resolved, the session
    has no running process, its working directory and mode are what they
    were, its cancellation flag says whether a cancel request arrived during
    the turn, and no other session has changed. What was sent to the client
    before the call is still there, followed by the notifications of the
    turn's events in their order. *)
Theorem prompt_frame st sid s chunks evs exitCode :
  sessions st !! sid = Some s →
  ∃ reason st' s',
    prompt sid chunks evs exitCode st = Returns reason st'
    ∧ sessions st' !! sid = Some s'
    ∧ running s' = None ∧ cwd s' = cwd s ∧ modeId s' = modeId s
    ∧ cancelled s' = existsb isCancelRequest evs
    ∧ (∀ sid', sid ≠ sid' → sessions st' !! sid' = sessions st !! sid')
    ∧ outbox st' = (outbox st ++ turnNotes (mkTurn sid None "") evs)%list.
Proof.
  intros Hs.
  destruct (prompt_spec st sid s chunks evs exitCode Hs) as (st' & Hp & Hl & Ho & Hout).
  eexists _, st', _. split; [exact Hp|]. split; [exact Hl|]. simpl. auto 10.
Qed.

Lemma prompt_frame_witness :
  let st := mkAgent {[ "s1" := mkSession (Some "/w") true VUndef ModePlan None;
                       "s2" := mkSession None false VUndef ModeDefault None ]} [] in
  let hello := StdoutLine (Json (VObj [ ("type", VStr "assistant");
                 ("message", VObj [ ("content", VArr [ VObj [ ("text", VStr "Hi") ] ]) ]) ])) in
  ∃ reason st' s',
    prompt "s1" [ ChunkText "go" ] [ hello; CancelRequest; hello ] (Some 0) st
    = Returns reason st'
    ∧ sessions st' !! "s1" = Some s'
    ∧ running s' = None ∧ modeId s' = ModePlan ∧ cancelled s' = true
    ∧ sessions st' !! "s2" = Some (mkSession None false VUndef ModeDefault None)
    ∧ outbox st' = [ chunk "s1" "Hi" ].
Proof.
  intros st hello.
  assert (Hs : sessions st !! "s1" = Some (mkSession (Some "/w") true VUndef ModePlan None))
    by (by vm_compute).
  destruct (prompt_frame st "s1" _ [ ChunkText "go" ] [ hello; CancelRequest; hello ]
              (Some 0) Hs)
    as (reason & st' & s' & Hp & Hl & Hr & _ & Hm & Hc & Ho & Hout).
  exists reason, st', s'. split; [exact Hp|]. split; [exact Hl|].
  split; [exact Hr|]. split; [exact Hm|]. split; [exact Hc|].
  split; [rewrite (Ho "s2") by done; by vm_compute | exact Hout].
Defined.

(** X11. The notifications of a prompt call do not depend on cancellation:
    with the cancel requests taken out of the turn the call sends exactly the
    same notifications, so forwarding goes on after a cancel request until
    the process exits. *)
Theorem prompt_forwards_after_cancel st sid s chunks evs exitCode :
  sessions st !! sid = Some s →
  ∃ reason st1 reason' st2,
    prompt sid chunks evs exitCode st = Returns reason st1
    ∧ prompt sid chunks (filter (λ ev, isCancelRequest ev = false) evs) exitCode st
      = Returns reason' st2
    ∧ outbox st1 = outbox st2.
Proof.
  intros Hs.
  destruct (prompt_spec st sid s chunks evs exitCode Hs) as (st1 & Hp1 & _ & _ & Ho1).
  destruct (prompt_spec st sid s chunks (filter (λ ev, isCancelRequest ev = false) evs)
              exitCode Hs) as (st2 & Hp2 & _ & _ & Ho2).
  eexists _, st1, _, st2. split; [exact Hp1|]. split; [exact Hp2|].
  rewrite Ho1, Ho2. f_equal. generalize (mkTurn sid None ""). clear.
  induction evs as [|ev evs IH]; intros t; [done|].
  rewrite filter_cons. destruct ev as [line|err| | |]; simpl.
  - destruct (decide (false = false)); [|done]. simpl. by rewrite IH.
  - destruct (decide (false = false)); [|done]. simpl. by rewrite IH.
  - destruct (decide (true = false)); [done|].
    replace (stepTurn t CancelRequest) with t; [apply IH|].
    unfold stepTurn. simpl. unfold cancel. by destruct (sessionsGet _ _).
  - destruct (decide (false = false)); [|done]. simpl. by rewrite IH.
  - destruct (decide (false = false)); [|done]. simpl. by rewrite IH.
Qed.

Lemma prompt_forwards_after_cancel_witness :
  let st := newSession "s1" None (mkAgent ∅ []) in
  let done := StdoutLine (Json (VObj [ ("type", VStr "tool_call");
                ("subtype", VStr "completed"); ("call_id", VStr "c1") ])) in
  ∃ st1, prompt "s1" [] [ CancelRequest; done ] (Some 0) st = Returns Cancelled st1
         ∧ outbox st1 = [ {| sessionId := "s1";
                             update := ToolCallUpdate (VStr "c1") Completed
                                         (Some VUndef) None None |} ].
Proof.
  intros st done.
  assert (Hs : sessions st !! "s1" = Some (mkSession None false VUndef ModeDefault None))
    by apply lookup_insert_eq.
  destruct (prompt_forwards_after_cancel st "s1" _ [] [ CancelRequest; done ] (Some 0) Hs)
    as (reason & st1 & reason' & st2 & Hp1 & Hp2 & Hout).
  exists st1. split.
  - rewrite Hp1. f_equal.
    assert (E : prompt "s1" [] [ CancelRequest; done ] (Some 0) st
                = Returns Cancelled
                    (match prompt "s1" [] [ CancelRequest; done ] (Some 0) st with
                     | Returns _ x => x | _ => st end)) by (by vm_compute).
    rewrite Hp1 in E. by injection E.
  - rewrite Hout.
    assert (E : Returns reason' st2
                = prompt "s1" [] (filter (λ ev, isCancelRequest ev = false)
                                    [ CancelRequest; done ]) (Some 0) st) by done.
    assert (E2 : outbox (match prompt "s1" [] (filter (λ ev, isCancelRequest ev = false)
                                [ CancelRequest; done ]) (Some 0) st with
                         | Returns _ x => x | _ => st end)
                 = [ {| sessionId := "s1";
                        update := ToolCallUpdate (VStr "c1") Completed
                                    (Some VUndef) None None |} ]) by (by vm_compute).
    by rewrite <- E in E2.
Defined.

(** ** Verbs in sequence *)

(** X12. On a registered session [cancel] returns, sends no notification,
    sets the cancellation flag and touches no other session. Of the process
    the session holds in [running] it tests the [killed] flag: when the flag
    is not set it sends SIGTERM, which reaches a process that has not exited
    and then sets the flag, and it sets one timer for SIGKILL; when the flag
    is set it sends nothing and sets no timer. So a second cancel leaves the
    state exactly as the first left it, unless the process has exited without
    having been signalled: then no signal is delivered, the flag stays unset,
    and every cancel sets one more timer. When the timer of a freshly spawned
    process fires before the process exits, the process has received SIGTERM
    and then SIGKILL, and no timer waits. *)
Theorem cancel_registered st sid s :
  sessions st !! sid = Some s →
  ∃ st1, cancel sid st = Returns tt st1
         ∧ sessions st1 !! sid
           = Some (mkSession (cwd s) true (resumeId s) (modeId s)
                     (match running s with
                      | Some c =>
                          Some (if killed c then c
                                else if exited c
                                     then mkChild (spawnargs c) true false (signals c)
                                            (S (killTimers c))
                                     else mkChild (spawnargs c) false true
                                            (signals c ++ [ SIGTERM ]) (S (killTimers c)))
                      | None => None
                      end))
         ∧ (∀ sid', sid ≠ sid' → sessions st1 !! sid' = sessions st !! sid')
         ∧ outbox st1 = outbox st
         ∧ ((∀ c, running s = Some c → killed c = true ∨ exited c = false) →
            cancel sid st1 = Returns tt st1)
         ∧ (∀ c, running s = Some c → killed c = false → exited c = true →
              ∃ st2, cancel sid st1 = Returns tt st2
                     ∧ running <$> sessions st2 !! sid
                       = Some (Some (mkChild (spawnargs c) true false (signals c)
                                       (S (S (killTimers c))))))
         ∧ (∀ args t, running s = Some (Spawned args) → turnSession t = sid →
              ∃ st2, turnStep (t, st1) KillTimer = (t, st2)
                     ∧ running <$> sessions st2 !! sid
                       = Some (Some (mkChild args false true [ SIGTERM; SIGKILL ] 0))
                     ∧ outbox st2 = outbox st).
Proof.
  intros Hs. unfold cancel at 1. rewrite (sessionsGet_own _ _ _ Hs).
  eexists. split; [reflexivity|].
  set (upd := λ s : SessionState,
                setRunning (cancelChild <$> running s) (setCancelled true s)).
  assert (Hl : sessions (updSession sid upd st) !! sid = Some (upd s)).
  { simpl. by rewrite lookup_alter_eq, Hs. }
  split; [|split; [|split; [|split; [|split]]]].
  - rewrite Hl. unfold upd, setRunning, setCancelled, cancelChild, kill. simpl.
    destruct (running s) as [c|]; simpl; [|done].
    destruct (killed c) eqn:Ek; [done|].
    destruct (exited c) eqn:Ee; [|done].
    unfold setKillTimer. by rewrite Ek, Ee.
  - intros sid' Hne. simpl. by rewrite lookup_alter_ne.
  - done.
  - intros Hlive.
    assert (Hidem : upd (upd s) = upd s).
    { unfold upd, setRunning, setCancelled, cancelChild, kill. simpl. f_equal.
      destruct (running s) as [c|] eqn:Hr; simpl; [|done].
      destruct (killed c) eqn:Ek; simpl; [by rewrite Ek|].
      destruct (Hlive c eq_refl) as [?|Ee]; [congruence|]. by rewrite Ee. }
    unfold cancel. rewrite (sessionsGet_own _ _ _ Hl). f_equal. fold upd.
    apply agent_eq; [|done]. intros k. simpl. rewrite (lookup_alter _ _ sid k).
    case_decide as E; [|done]. subst k. rewrite lookup_alter_eq, Hs.
    change (Some (upd (upd s)) = Some (upd s)). by rewrite Hidem.
  - intros c Hr Hk He. unfold cancel. rewrite (sessionsGet_own _ _ _ Hl).
    eexists. split; [reflexivity|]. simpl. rewrite !lookup_alter_eq, Hs. simpl.
    rewrite Hr. simpl. unfold cancelChild, kill. rewrite Hk, He. simpl.
    rewrite Hk, He. unfold setKillTimer. simpl. by rewrite Hk, He.
  - intros args t Hr <-. eexists. split; [reflexivity|]. split; [|done].
    simpl. rewrite !lookup_alter_eq, Hs. simpl. by rewrite Hr.
Qed.

Lemma cancel_registered_witness :
  let child := Spawned [ VStr "--print" ] in
  let st := mkAgent {[ "s1" := mkSession None false (VStr "r1") ModePlan (Some child) ]} [] in
  ∃ st1 st2,
    cancel "s1" st = Returns tt st1
    ∧ sessions st1 !! "s1"
      = Some (mkSession None true (VStr "r1") ModePlan
                (Some (mkChild [ VStr "--print" ] false true [ SIGTERM ] 1)))
    ∧ cancel "s1" st1 = Returns tt st1
    ∧ turnStep (mkTurn "s1" None "", st1) KillTimer = (mkTurn "s1" None "", st2)
    ∧ running <$> sessions st2 !! "s1"
      = Some (Some (mkChild [ VStr "--print" ] false true [ SIGTERM; SIGKILL ] 0)).
Proof.
  intros child st.
  destruct (cancel_registered st "s1" _ (lookup_singleton_eq _ _))
    as (st1 & Hc & Hl & _ & _ & Hidem & _ & Htimer).
  destruct (Htimer [ VStr "--print" ] (mkTurn "s1" None "") eq_refl eq_refl)
    as (st2 & Hstep & Hr & _).
  exists st1, st2. split; [exact Hc|]. split; [exact Hl|].
  split; [apply Hidem; intros c [= <-]; by right|].
  split; [exact Hstep | exact Hr].
Defined.

(** X13. A cancel request that arrives before a prompt call does not cancel
    it: the call clears the flag when it starts, so it resolves with the same
    stop-reason and leaves the same state as if no cancel had been
    requested. *)
Theorem cancel_before_prompt_is_forgotten st st1 sid s chunks evs exitCode :
  sessions st !! sid = Some s →
  cancel sid st = Returns tt st1 →
  prompt sid chunks evs exitCode st1 = prompt sid chunks evs exitCode st.
Proof.
  intros Hs Hc. unfold cancel in Hc. rewrite (sessionsGet_own _ _ _ Hs) in Hc.
  injection Hc as <-.
  set (upd := λ s : SessionState,
                setRunning (cancelChild <$> running s) (setCancelled true s)).
  assert (Hs1 : sessions (updSession sid upd st) !! sid = Some (upd s)).
  { simpl. by rewrite lookup_alter_eq, Hs. }
  destruct (prompt_spec st sid s chunks evs exitCode Hs) as (a & -> & Hla & Hoa & Houta).
  destruct (prompt_spec _ sid _ chunks evs exitCode Hs1) as (b & -> & Hlb & Hob & Houtb).
  f_equal. apply agent_eq.
  - intros k. destruct (decide (sid = k)) as [<-|Hne].
    + by rewrite Hla, Hlb.
    + rewrite Hoa, Hob by done. simpl. by rewrite lookup_alter_ne.
  - by rewrite Houta, Houtb.
Qed.

Lemma cancel_before_prompt_witness :
  let st := newSession "s1" None (mkAgent ∅ []) in
  ∃ st1 st2, cancel "s1" st = Returns tt st1
             ∧ prompt "s1" [ ChunkText "hi" ] [] (Some 0) st1 = Returns EndTurn st2.
Proof.
  intros st.
  assert (Hs : sessions st !! "s1" = Some (mkSession None false VUndef ModeDefault None))
    by apply lookup_insert_eq.
  eexists _, _. split; [reflexivity|].
  rewrite (cancel_before_prompt_is_forgotten st _ "s1" _ [ ChunkText "hi" ] [] (Some 0)
             Hs eq_refl).
  reflexivity.
Defined.

(** X14. [newSession] registers under the drawn id a session in default mode,
    not cancelled, with no resume handle and no process; it sends nothing
    itself and changes no session of another id. The verbs accept the new id
    at once, and the first prompt of the session spawns the process without a
    resume argument. The timer it sets sends one available_commands_update
    for the new id and changes no session. *)
Theorem newSession_registers st id dir :
  let st1 := newSession id dir st in
  sessions st1 !! id = Some (mkSession dir false VUndef ModeDefault None)
  ∧ (∀ id', id ≠ id' → sessions st1 !! id' = sessions st !! id')
  ∧ outbox st1 = outbox st
  ∧ sessions (announceCommands id st1) = sessions st1
  ∧ outbox (announceCommands id st1)
    = (outbox st ++ [ {| sessionId := id; update := AvailableCommandsUpdate |} ])%list
  ∧ (∃ st2, cancel id st1 = Returns tt st2)
  ∧ (∃ st2, setSessionMode id "plan" st1 = Returns tt st2)
  ∧ (∀ chunks, ∃ st2 args,
       promptStart id chunks st1 = Returns (mkTurn id None "") st2
       ∧ running <$> sessions st2 !! id = Some (Some (Spawned args))
       ∧ (args = baseArgs
          ∨ args = (baseArgs ++ [ VStr (concatPromptChunks chunks) ])%list)).
Proof.
  intros st1.
  assert (Hl : sessions st1 !! id = Some (mkSession dir false VUndef ModeDefault None))
    by apply lookup_insert_eq.
  split; [exact Hl|]. split; [intros id' Hne; by apply lookup_insert_ne|].
  split; [done|]. split; [done|]. split; [done|]. split; [|split].
  - unfold cancel. rewrite (sessionsGet_own _ _ _ Hl). eauto.
  - unfold setSessionMode. rewrite (sessionsGet_own _ _ _ Hl). eauto.
  - intros chunks. unfold promptStart. rewrite (sessionsGet_own _ _ _ Hl).
    eexists _, _. split; [reflexivity|]. split.
    + rewrite (updSession_lookup _ _ _ _ Hl). reflexivity.
    + unfold spawnArgs. simpl.
      change ("" +:+ concatPromptChunks chunks) with (concatPromptChunks chunks).
      destruct (negb (concatPromptChunks chunks =? "")%string); [right | left]; done.
Qed.

(** X15. The resume handle carries over to the next turn: when a turn of a
    session without a handle processes an event with a truthy [session_id],
    the next prompt of that session spawns the process with ["--resume"] and
    the first such id right after the fixed flags. *)
Theorem resume_handle_reaches_next_turn st sid s chunks evs exitCode chunks' :
  sessions st !! sid = Some s →
  truthy (resumeId s) = false →
  truthy (firstOfferedId evs) = true →
  ∃ reason st1 t st2 rest,
    prompt sid chunks evs exitCode st = Returns reason st1
    ∧ promptStart sid chunks' st1 = Returns t st2
    ∧ running <$> sessions st2 !! sid
      = Some (Some (Spawned (baseArgs ++ [ VStr "--resume"; firstOfferedId evs ]
                             ++ rest)%list)).
Proof.
  intros Hs Hr Hf.
  destruct (prompt_spec st sid s chunks evs exitCode Hs) as (st1 & Hp & Hl & _ & _).
  rewrite Hr, Hf in Hl.
  eexists _, st1, _, _, _. split; [exact Hp|].
  unfold promptStart. rewrite (sessionsGet_own _ _ _ Hl). split; [reflexivity|].
  simpl. rewrite lookup_alter_eq, Hl. simpl. unfold spawnArgs. simpl.
  rewrite Hf. reflexivity.
Qed.

Lemma resume_handle_reaches_next_turn_witness :
  let st := newSession "s1" None (mkAgent ∅ []) in
  let init := StdoutLine (Json (VObj [ ("type", VStr "system"); ("session_id", VStr "abc") ])) in
  ∃ reason st1 t st2 rest,
    prompt "s1" [ ChunkText "one" ] [ init ] (Some 0) st = Returns reason st1
    ∧ promptStart "s1" [ ChunkText "two" ] st1 = Returns t st2
    ∧ running <$> sessions st2 !! "s1"
      = Some (Some (Spawned (baseArgs ++ [ VStr "--resume"; VStr "abc" ] ++ rest)%list)).
Proof.
  intros st init.
  assert (Hs : sessions st !! "s1" = Some (mkSession None false VUndef ModeDefault None))
    by apply lookup_insert_eq.
  exact (resume_handle_reaches_next_turn st "s1" _ [ ChunkText "one" ] [ init ] (Some 0)
           [ ChunkText "two" ] Hs eq_refl eq_refl).
Defined.

(** X16. The mode set by [setSessionMode] governs the next prompt: after
    "plan" the prompt argument is the plan directive followed by the prompt
    text, after "default" it is the prompt text alone (and no argument when
    that is empty). *)
Theorem mode_governs_next_prompt st sid s chunks :
  sessions st !! sid = Some s →
  (∃ st1 t st2 args,
     setSessionMode sid "plan" st = Returns tt st1
     ∧ promptStart sid chunks st1 = Returns t st2
     ∧ running <$> sessions st2 !! sid = Some (Some (Spawned args))
     ∧ List.last args VUndef
       = VStr ("[PLAN MODE] Do not edit files or run commands. Analyze only."
               +:+ LF +:+ LF +:+ concatPromptChunks chunks))
  ∧ (∃ st1 t st2 args,
       setSessionMode sid "default" st = Returns tt st1
       ∧ promptStart sid chunks st1 = Returns t st2
       ∧ running <$> sessions st2 !! sid = Some (Some (Spawned args))
       ∧ (concatPromptChunks chunks ≠ "" →
          List.last args VUndef = VStr (concatPromptChunks chunks))
       ∧ (concatPromptChunks chunks = "" →
          (VStr "" ∉ args)
          ∧ List.length args = (if truthy (resumeId s) then 6 else 4)%nat)).
Proof.
  intros Hs. split.
  - unfold setSessionMode. rewrite (sessionsGet_own _ _ _ Hs). simpl.
    eexists _, _, _, _. split; [reflexivity|].
    set (st1 := send _ _).
    assert (Hl : sessions st1 !! sid = Some (setModeId ModePlan s)).
    { subst st1. simpl. by rewrite lookup_alter_eq, Hs. }
    unfold promptStart. rewrite (sessionsGet_own _ _ _ Hl). split; [reflexivity|].
    split; [rewrite (updSession_lookup _ _ _ _ Hl); reflexivity|].
    unfold spawnArgs.
    assert (E : ∀ c, negb (planPrefix ModePlan +:+ c =? "")%string = true)
      by reflexivity.
    change (modeId (setModeId ModePlan s)) with ModePlan.
    rewrite E, app_assoc, last_last. unfold planPrefix.
    by rewrite !append_assoc.
  - unfold setSessionMode. rewrite (sessionsGet_own _ _ _ Hs). simpl.
    eexists _, _, _, _. split; [reflexivity|].
    set (st1 := send _ _).
    assert (Hl : sessions st1 !! sid = Some (setModeId ModeDefault s)).
    { subst st1. simpl. by rewrite lookup_alter_eq, Hs. }
    unfold promptStart. rewrite (sessionsGet_own _ _ _ Hl). split; [reflexivity|].
    split; [rewrite (updSession_lookup _ _ _ _ Hl); reflexivity|].
    unfold spawnArgs.
    change (modeId (setModeId ModeDefault s)) with ModeDefault.
    change (resumeId (setModeId ModeDefault s)) with (resumeId s).
    change (planPrefix ModeDefault +:+ concatPromptChunks chunks)
      with (concatPromptChunks chunks).
    split.
    + intros Hne. apply String.eqb_neq in Hne. rewrite Hne. simpl negb. cbv iota.
      by rewrite app_assoc, last_last.
    + intros ->. simpl. destruct (truthy (resumeId s)) eqn:E; simpl.
      * split; [|done]. rewrite !not_elem_of_cons. repeat split; try done.
        -- intros Heq. rewrite <- Heq in E. done.
        -- apply not_elem_of_nil.
      * split; [|done]. rewrite !not_elem_of_cons. repeat split; try done.
        apply not_elem_of_nil.
Qed.

Lemma mode_governs_next_prompt_witness :
  let st := newSession "s1" None (mkAgent ∅ []) in
  ∃ st1 t st2 args,
    setSessionMode "s1" "plan" st = Returns tt st1
    ∧ promptStart "s1" [ ChunkText "look" ] st1 = Returns t st2
    ∧ running <$> sessions st2 !! "s1" = Some (Some (Spawned args))
    ∧ List.last args VUndef
      = VStr ("[PLAN MODE] Do not edit files or run commands. Analyze only."
              +:+ LF +:+ LF +:+ "look").
Proof.
  intros st.
  assert (Hs : sessions st !! "s1" = Some (mkSession None false VUndef ModeDefault None))
    by apply lookup_insert_eq.
  exact (proj1 (mode_governs_next_prompt st "s1" _ [ ChunkText "look" ] Hs)).
Defined.

(** ** The authentication hint *)

Lemma prefixCI_spec p : ∀ s,
  prefixCI p s = true ↔ ∃ m b, s = m +:+ b ∧ lowerCase m = p.
Proof.
  induction p as [|a p IH]; intros s; simpl.
  - split; [intros _; by exists "", s|done].
  - destruct s as [|c s].
    + split; [done|]. intros (m & b & Hs & Hm).
      destruct m as [|c m]; simpl in Hm; [done|]. by rewrite append_cons in Hs.
    + rewrite andb_true_iff, IH. split.
      * intros [Ha (m & b & -> & <-)]. apply Ascii.eqb_eq in Ha as ->.
        by exists (String c m), b.
      * intros (m & b & Hs & Hm). destruct m as [|c' m]; simpl in Hm; [done|].
        rewrite append_cons in Hs. injection Hs as -> ->. injection Hm as <- <-.
        split; [apply Ascii.eqb_refl | eauto].
Qed.

Lemma testCI_unfold p s :
  testCI p s = prefixCI p s || match s with
                               | EmptyString => false
                               | String _ r => testCI p r
                               end.
Proof. by destruct s. Qed.

Lemma testCI_spec p s : testCI p s = true ↔ containsCI p s.
Proof.
  unfold containsCI. split.
  - induction s as [|c s IH]; rewrite testCI_unfold, orb_true_iff.
    + intros [H|?]; [|done]. apply prefixCI_spec in H as (m & b & -> & <-).
      by exists "", m, b.
    + intros [H|H].
      * apply prefixCI_spec in H as (m & b & -> & <-). by exists "", m, b.
      * destruct (IH H) as (a & m & b & -> & <-). by exists (String c a), m, b.
  - intros (a & m & b & -> & <-). induction a as [|c a IH].
    + rewrite testCI_unfold. apply orb_true_iff. left. apply prefixCI_spec.
      by exists m, b.
    + rewrite append_cons, testCI_unfold, IH. apply orb_true_r.
Qed.

Lemma capturedStop_skip pre ev post :
  lineStop ev = None → capturedStop (pre ++ ev :: post) = capturedStop (pre ++ post).
Proof.
  intros Hev. induction pre as [|x pre IH]; simpl.
  - rewrite Hev. by destruct (capturedStop post).
  - by rewrite IH.
Qed.

(** X17. Data on the child's standard error changes no session and no turn
    variable. It sends the one authentication hint exactly when it contains
    both "login" and "cursor-agent", each in any mix of upper and lower case,
    and nothing otherwise; wherever it arrives in a turn, the prompt call
    resolves with the same stop-reason as without it. *)
Theorem stderr_only_hints st sid s chunks pre post exitCode err :
  sessions st !! sid = Some s →
  (∀ t st0,
     sessions (onStderr err t st0) = sessions st0
     ∧ (containsCI "login" err ∧ containsCI "cursor-agent" err →
        outbox (onStderr err t st0)
        = (outbox st0 ++ [ chunk (turnSession t) authHint ])%list)
     ∧ (¬ (containsCI "login" err ∧ containsCI "cursor-agent" err) →
        onStderr err t st0 = st0))
  ∧ ∃ reason st1 st2,
      prompt sid chunks (pre ++ StderrData err :: post) exitCode st = Returns reason st1
      ∧ prompt sid chunks (pre ++ post) exitCode st = Returns reason st2
      ∧ sessions st1 = sessions st2.
Proof.
  intros Hs. split.
  - intros t st0. unfold onStderr.
    destruct (testCI "login" err) eqn:E1; destruct (testCI "cursor-agent" err) eqn:E2; simpl.
    1: split; [done|]; split; [done|]; intros Hn; exfalso; apply Hn;
         split; by apply testCI_spec.
    all: split; [done|]; split; [|done]; intros [H1 H2];
      apply testCI_spec in H1, H2; congruence.
  - destruct (prompt_spec st sid s chunks (pre ++ StderrData err :: post) exitCode Hs)
      as (st1 & Hp1 & Hl1 & Ho1 & _).
    destruct (prompt_spec st sid s chunks (pre ++ post) exitCode Hs)
      as (st2 & Hp2 & Hl2 & Ho2 & _).
    assert (Hc : existsb isCancelRequest (pre ++ StderrData err :: post)
                 = existsb isCancelRequest (pre ++ post)).
    { rewrite !existsb_app. done. }
    assert (Hf : firstOfferedId (pre ++ StderrData err :: post)
                 = firstOfferedId (pre ++ post)).
    { clear. induction pre as [|x pre IH]; simpl; [done|]. by rewrite IH. }
    assert (Hr : turnReason (pre ++ StderrData err :: post) exitCode
                 = turnReason (pre ++ post) exitCode).
    { unfold turnReason. by rewrite Hc, capturedStop_skip. }
    exists (turnReason (pre ++ post) exitCode), st1, st2.
    split; [by rewrite Hp1, Hr|]. split; [exact Hp2|].
    apply map_eq. intros k. destruct (decide (sid = k)) as [<-|Hne].
    + by rewrite Hl1, Hl2, Hc, Hf.
    + by rewrite Ho1, Ho2.
Qed.

Lemma stderr_only_hints_witness :
  let st := newSession "s1" None (mkAgent ∅ []) in
  outbox (onStderr "Please LOGIN: run Cursor-Agent login" (mkTurn "s1" None "") st)
  = [ chunk "s1" authHint ]
  ∧ onStderr "warning: slow disk" (mkTurn "s1" None "") st = st.
Proof.
  intros st.
  assert (Hs : sessions st !! "s1" = Some (mkSession None false VUndef ModeDefault None))
    by apply lookup_insert_eq.
  split.
  - destruct (proj1 (stderr_only_hints st "s1" _ [] [] [] None
                       "Please LOGIN: run Cursor-Agent login" Hs)
                (mkTurn "s1" None "") st) as (_ & Hhit & _).
    apply Hhit. split.
    + by exists "Please ", "LOGIN", ": run Cursor-Agent login".
    + by exists "Please LOGIN: run ", "Cursor-Agent", " login".
  - destruct (proj1 (stderr_only_hints st "s1" _ [] [] [] None "warning: slow disk" Hs)
                (mkTurn "s1" None "") st) as (_ & _ & Hmiss).
    apply Hmiss. intros [H _]. apply testCI_spec in H. by vm_compute in H.
Defined.

(** ** White space *)








(** ** Turns that send nothing, and repeated events *)

Lemma stepTurn_json t evt :
  stepTurn t (StdoutLine (Json evt))
  = match mapCursorEventToAcp (turnSession t) evt (lastAssistantText t) with
    | Normal _ =>
        mkTurn (turnSession t)
          (match resultStopReason evt with Some r => Some r | None => stopReason t end)
          (if isStr (prop evt "type") "assistant"
           then match assistantText evt with
                | VStr text => if negb (text =? "")%string then text
                               else lastAssistantText t
                | _ => lastAssistantText t
                end
           else lastAssistantText t)
    | Throw _ => t
    end.
Proof.
  unfold stepTurn. simpl. unfold onLine, onLineBody. simpl.
  by destruct (mapCursorEventToAcp _ _ _).
Qed.

Lemma stepTurn_session t ev : turnSession (stepTurn t ev) = turnSession t.
Proof.
  destruct ev as [[|evt]|err| | |]; try done.
  - rewrite stepTurn_json. by destruct (mapCursorEventToAcp _ _ _).
  - unfold stepTurn. simpl. unfold cancel. by destruct (sessionsGet _ _).
Qed.

Lemma quiet_stepNotes t ev : quietEvent ev → stepNotes t ev = [].
Proof.
  destruct ev as [[|evt]|err| | |]; simpl; try done.
  intros [Ha Ht]. destruct (nullish evt) eqn:En.
  - unfold mapCursorEventToAcp, get. by rewrite En.
  - by rewrite mapper_other.
Qed.

(** X19. A turn whose events are only lines that are no JSON, events that are
    neither assistant nor tool_call events (user echoes, system and result
    events, unknown types, [null]), cancel requests and their timers sends
    nothing to the client: the outbox after the prompt call is the outbox
    before it. *)
Theorem quiet_turn_sends_nothing st sid s chunks evs exitCode :
  sessions st !! sid = Some s →
  Forall quietEvent evs →
  ∃ reason st', prompt sid chunks evs exitCode st = Returns reason st'
                ∧ outbox st' = outbox st.
Proof.
  intros Hs Hq.
  destruct (prompt_spec st sid s chunks evs exitCode Hs) as (st' & Hp & _ & _ & Hout).
  eexists _, st'. split; [exact Hp|]. rewrite Hout.
  assert (E : ∀ t, turnNotes t evs = []).
  { clear -Hq. induction Hq as [|ev evs Hev _ IH]; intros t; [done|].
    change (turnNotes t (ev :: evs))
      with (stepNotes t ev ++ turnNotes (stepTurn t ev) evs)%list.
    by rewrite (quiet_stepNotes _ _ Hev), IH. }
  by rewrite E, app_nil_r.
Qed.

Lemma quiet_turn_witness :
  let st := newSession "s1" None (mkAgent ∅ []) in
  let user := StdoutLine (Json (VObj [ ("type", VStr "user");
                ("message", VObj [ ("content", VArr [ VObj [ ("text", VStr "hi") ] ]) ]) ])) in
  let result := StdoutLine (Json (VObj [ ("type", VStr "result"); ("subtype", VStr "success") ])) in
  ∃ reason st', prompt "s1" [ ChunkText "hi" ]
                  [ user; StdoutLine NotJson; StdoutLine (Json VNull); result ] (Some 0) st
                = Returns reason st'
                ∧ outbox st' = [].
Proof.
  intros st user result.
  assert (Hs : sessions st !! "s1" = Some (mkSession None false VUndef ModeDefault None))
    by apply lookup_insert_eq.
  apply (quiet_turn_sends_nothing st "s1" _ [ ChunkText "hi" ] _ (Some 0) Hs).
  repeat constructor; simpl; done.
Defined.

Lemma turnNotes_app a : ∀ t b,
  turnNotes t (a ++ b)
  = (turnNotes t a ++ turnNotes (fold_left stepTurn a t) b)%list.
Proof.
  induction a as [|ev a IH]; intros t b; simpl; [done|].
  by rewrite IH, app_assoc.
Qed.

Lemma assistant_seen_is_silent u evt :
  prop evt "type" = VStr "assistant" →
  match assistantText evt with
  | VStr text => text = "" ∨ lastAssistantText u = text
  | _ => True
  end →
  stepNotes u (StdoutLine (Json evt)) = []
  ∧ stepTurn u (StdoutLine (Json evt)) = u.
Proof.
  intros Ht Hseen. rewrite stepTurn_json. unfold stepNotes.
  rewrite (mapper_assistant _ _ _ Ht), (resultStop_assistant _ Ht), Ht.
  unfold mapAssistant. destruct u as [sid stop last]. simpl in *.
  destruct (assistantText evt) as [| |b|n|text|l|ps]; simpl; try done.
  - by destruct b.
  - by destruct (negb (n =? 0)).
  - destruct Hseen as [-> | ->]; [done|].
    destruct (String.eqb_spec text "") as [->|Hne]; simpl; [done|].
    by rewrite String.eqb_refl.
Qed.

Lemma assistant_replay t evt :
  prop evt "type" = VStr "assistant" →
  let ev := StdoutLine (Json evt) in
  stepNotes (stepTurn t ev) ev = [] ∧ stepTurn (stepTurn t ev) ev = stepTurn t ev.
Proof.
  intros Ht ev. apply (assistant_seen_is_silent _ _ Ht).
  subst ev. rewrite stepTurn_json.
  rewrite (mapper_assistant _ _ _ Ht), Ht. unfold mapAssistant.
  destruct (assistantText evt) as [| |b|n|text|l|ps]; try done.
  simpl. destruct (String.eqb_spec text "") as [->|Hne]; [by left|]. simpl.
  right. by repeat case_match.
Qed.

(** X20. An assistant event that arrives twice in a row is sent once: the
    repetition sends nothing and changes no turn variable, so a prompt call
    sends the same notifications with and without it. *)
Theorem repeated_assistant_event_is_silent st sid s chunks pre post exitCode evt :
  sessions st !! sid = Some s →
  prop evt "type" = VStr "assistant" →
  let ev := StdoutLine (Json evt) in
  ∃ reason1 st1 reason2 st2,
    prompt sid chunks (pre ++ [ ev; ev ] ++ post) exitCode st = Returns reason1 st1
    ∧ prompt sid chunks (pre ++ [ ev ] ++ post) exitCode st = Returns reason2 st2
    ∧ outbox st1 = outbox st2.
Proof.
  intros Hs Ht ev.
  destruct (prompt_spec st sid s chunks (pre ++ [ ev; ev ] ++ post) exitCode Hs)
    as (st1 & Hp1 & _ & _ & Ho1).
  destruct (prompt_spec st sid s chunks (pre ++ [ ev ] ++ post) exitCode Hs)
    as (st2 & Hp2 & _ & _ & Ho2).
  eexists _, st1, _, st2. split; [exact Hp1|]. split; [exact Hp2|].
  rewrite Ho1, Ho2. f_equal. rewrite !turnNotes_app. f_equal.
  set (t := fold_left stepTurn pre _).
  destruct (assistant_replay t evt Ht) as [Hn Hsame]. cbv zeta in Hn, Hsame.
  subst ev. set (ev := StdoutLine (Json evt)) in *.
  change (turnNotes t [ ev; ev ])
    with (stepNotes t ev ++ stepNotes (stepTurn t ev) ev ++ [])%list.
  change (fold_left stepTurn [ ev; ev ] t) with (stepTurn (stepTurn t ev) ev).
  change (turnNotes t [ ev ]) with (stepNotes t ev ++ [])%list.
  change (fold_left stepTurn [ ev ] t) with (stepTurn t ev).
  by rewrite Hn, Hsame.
Qed.

Lemma repeated_assistant_event_witness :
  let st := newSession "s1" None (mkAgent ∅ []) in
  let hello := VObj [ ("type", VStr "assistant");
                      ("message", VObj [ ("content", VArr [ VObj [ ("text", VStr "Hello") ] ]) ]) ] in
  ∃ reason1 st1 reason2 st2,
    prompt "s1" [] ([] ++ [ StdoutLine (Json hello); StdoutLine (Json hello) ] ++ [])
      (Some 0) st = Returns reason1 st1
    ∧ prompt "s1" [] ([] ++ [ StdoutLine (Json hello) ] ++ []) (Some 0) st
      = Returns reason2 st2
    ∧ outbox st1 = outbox st2.
Proof.
  intros st hello.
  assert (Hs : sessions st !! "s1" = Some (mkSession None false VUndef ModeDefault None))
    by apply lookup_insert_eq.
  exact (repeated_assistant_event_is_silent st "s1" _ [] [] [] (Some 0) hello Hs eq_refl).
Defined.

(** ** Titles *)

Lemma cons_append_nonempty a s t : String a s +:+ t ≠ "".
Proof. by rewrite append_cons. Qed.

(** X21. No tool call is announced without a title: whenever the title
    classifier returns for a kind that is not the empty string, the title is
    not empty, and the kind the mapper passes ([toolKindKey || "Other"]) is
    never the empty string. For read, write and glob the title starts with
    the verb; for a shell kind it is "Terminal" or the command between
    backquotes. *)
Theorem title_never_empty kind args title :
  buildToolTitle kind args = Normal title →
  (kind ≠ "" → title ≠ "")
  ∧ (∀ key, keyOrOther key ≠ "")
  ∧ (kind = "readToolCall" → startsWith title "Read" = true)
  ∧ (kind = "writeToolCall" → startsWith title "Write" = true)
  ∧ (kind = "globToolCall" → startsWith title "Glob" = true)
  ∧ (kind = "bashToolCall" ∨ kind = "shellToolCall" →
     title = "Terminal" ∨ ∃ cmd, title = "`" +:+ cmd +:+ "`").
Proof.
  intros H. split; [|split; [|split; [|split; [|split]]]].
  - intros Hk. revert H. unfold buildToolTitle.
    repeat first [ step_ToString; simpl | case_match; simpl ];
      intros [= <-]; first [ done | apply cons_append_nonempty ].
  - intros [k|]; simpl; [|done]. by destruct (String.eqb_spec k "").
  - intros ->. revert H. unfold buildToolTitle. simpl.
    destruct (truthy (prop args "path")); [|by intros [= <-]].
    step_ToString; simpl; [|done]. intros [= <-].
    apply (startsWith_append "Read" (" " +:+ _)).
  - intros ->. revert H. unfold buildToolTitle. simpl.
    destruct (truthy (prop args "path")); [|by intros [= <-]].
    step_ToString; simpl; [|done]. intros [= <-].
    apply (startsWith_append "Write" (" " +:+ _)).
  - intros ->. revert H. unfold buildToolTitle. simpl.
    destruct (truthy (prop args "pattern")); [|by intros [= <-]].
    step_ToString; simpl; [|done]. intros [= <-].
    apply (startsWith_append "Glob" (" " +:+ _)).
  - intros Hk. revert H. unfold buildToolTitle.
    assert (E : ((kind =? "readToolCall")%string = false
                 ∧ (kind =? "writeToolCall")%string = false
                 ∧ (kind =? "grepToolCall")%string = false
                 ∧ (kind =? "globToolCall")%string = false
                 ∧ ((kind =? "bashToolCall")%string || (kind =? "shellToolCall")%string)
                   = true)) by (by destruct Hk as [-> | ->]).
    destruct E as (-> & -> & -> & -> & ->).
    repeat first [ step_ToString; simpl | case_match; simpl ]; try done;
      intros [= <-]; eauto.
Qed.

Lemma title_never_empty_witness :
  buildToolTitle "shellToolCall" (VObj [ ("cmd", VStr "make test") ]) = Normal "`make test`"
  ∧ "`make test`" ≠ "".
Proof.
  split; [reflexivity|].
  exact (proj1 (title_never_empty "shellToolCall" (VObj [ ("cmd", VStr "make test") ])
                  "`make test`" eq_refl) ltac:(done)).
Defined.
